(** * json-collector: a shallow embedding of [fields.py] and [collector.py]

    The development follows the two source files.

    - [PyValue]: the JSON-like values records are made of, the exceptions the
      code can raise, and the Python built-ins the code calls on values
      ([x[i]], [str.split], [!=], [int], [float], [list]).
    - [Fields]: [fields.py], the [Field] class and its typed subclasses.
    - [Storage]: the part of [sqlite3] that [collector.py] drives.
    - [Collector]: [collector.py], the [JsonDataCollector] class.
    - [Facade]: the query and CSV export methods of [collector.py].
    - [Terms], [Claims], [Demo]: vocabulary, statements of the specification
      written out as propositions, and concrete collectors and records.
    - [FieldsFacts], [CollectorFacts], [Examples]: what is proved of the
      specification's claims.
    - [MoreFieldsFacts], [MoreCollectorFacts], [FacadeFacts], [MoreExamples]:
      further properties of the code.

    Python [str] values are modelled as Rocq strings (ASCII text); [bytes]
    values and tuples inside records are not modelled.  A [float] is an IEEE
    binary64 value, written as a [spec_float].  User callables (parsers,
    validators, converters, the error handler) are functions: they may raise
    but keep no state. *)

From Stdlib Require Import ZArith Ascii String Floats.SpecFloat Lia.
From stdpp Require Import base option list gmap strings pretty.

Set Warnings "-register-all".

Open Scope string_scope.
Open Scope Z_scope.

(* ===================================================================== *)
(** * Python values, exceptions and built-ins *)
(* ===================================================================== *)

Module PyValue.

(** A record is any nested JSON-like value.  A [dict] is the list of its
    items in insertion order; its keys are strings. *)
Inductive pyval : Type :=
| VNone
| VBool (b : bool)
| VInt (z : Z)
| VFloat (f : spec_float)
| VStr (s : string)
| VList (l : list pyval)
| VDict (d : list (string * pyval)).

(** The exceptions that can travel through the code.  All but [NonException]
    are subclasses of [Exception]; [NonException] stands for a
    [BaseException] such as [KeyboardInterrupt] or [SystemExit] raised by a
    user callback. *)
Inductive exn : Type :=
| ValueError
| TypeError
| OverflowError
| KeyError
| IndexError
| RuntimeError
| ZeroDivisionError
| SqliteError
| UserException (tag : string)
| NonException (tag : string).

(** [isinstance(e, Exception)], what [except Exception] catches. *)
Definition is_Exception (e : exn) : bool :=
  match e with
  | NonException _ => false
  | _ => true
  end.

(** The outcome of a call that may raise. *)
Inductive result (A : Type) : Type :=
| Ok (a : A)
| Raise (e : exn).
Arguments Ok {A} a.
Arguments Raise {A} e.

#[global] Instance result_ret : MRet result := fun A a => Ok a.
#[global] Instance result_bind : MBind result := fun A B f m =>
  match m with
  | Ok a => f a
  | Raise e => Raise e
  end.
#[global] Instance result_fmap : FMap result := fun A B f m =>
  match m with
  | Ok a => Ok (f a)
  | Raise e => Raise e
  end.

(** ** Floats *)

Definition prec : Z := 53.
Definition emax : Z := 1024.

Definition nan : spec_float := S754_nan.

(** [float(z)] for an integer that is in range. *)
Definition float_of_Z (z : Z) : spec_float := binary_normalize prec emax z 0 false.

Definition is_nan (f : spec_float) : bool :=
  match f with
  | S754_nan => true
  | _ => false
  end.

(** The integer a finite float is worth, when it is worth one. *)
Definition float_to_Z_exact (f : spec_float) : option Z :=
  match f with
  | S754_zero _ => Some 0
  | S754_finite s m e =>
      let v := if s then Z.neg m else Z.pos m in
      if 0 <=? e then Some (v * 2 ^ e)
      else if v mod 2 ^ (- e) =? 0 then Some (v / 2 ^ (- e)) else None
  | _ => None
  end.

(** ** Indexing: [l[i]] with Python's negative indices *)

Definition py_getitem {A : Type} (l : list A) (i : Z) : result A :=
  let n := Z.of_nat (length l) in
  let j := if i <? 0 then i + n else i in
  if (0 <=? j) && (j <? n)
  then match l !! Z.to_nat j with
       | Some x => Ok x
       | None => Raise IndexError
       end
  else Raise IndexError.

(** ** Dictionaries: [key in d.keys()] and [d[key]] *)

Fixpoint dict_get (d : list (string * pyval)) (key : string) : option pyval :=
  match d with
  | [] => None
  | (k, v) :: rest => if String.eqb k key then Some v else dict_get rest key
  end.

(** ** [s.split(sep)] for a one-character separator *)

Fixpoint split (sep : ascii) (s : string) : list string :=
  match s with
  | EmptyString => [EmptyString]
  | String c rest =>
      if Ascii.eqb c sep then EmptyString :: split sep rest
      else match split sep rest with
           | [] => [String c EmptyString]
           | w :: ws => String c w :: ws
           end
  end.

(** ** [list(r)]: the items a [for] loop over [r] visits *)

Fixpoint chars (s : string) : list pyval :=
  match s with
  | EmptyString => []
  | String c rest => VStr (String c EmptyString) :: chars rest
  end.

Definition py_list (r : pyval) : result (list pyval) :=
  match r with
  | VList l => Ok l
  | VDict d => Ok (map (fun kv => VStr (fst kv)) d)
  | VStr s => Ok (chars s)
  | _ => Raise TypeError
  end.

(** ** [x == y] and [x != y]

    Numbers compare by value across [bool], [int] and [float]; a NaN is
    unequal to everything, itself included.  Lists compare item by item, dicts
    key by key.  (Python takes two items of a container that are the same
    object as equal without comparing them; values have no identity here.
    The code compares key tuples item by item itself, and no container gets
    into the hash table: the storage refuses to bind one.) *)

Definition num_eq_float (z : Z) (f : spec_float) : bool :=
  match float_to_Z_exact f with
  | Some z' => z =? z'
  | None => false
  end.

Definition Z_of_bool (b : bool) : Z := if b then 1 else 0.

Fixpoint py_eq (x y : pyval) {struct x} : bool :=
  match x, y with
  | VNone, VNone => true
  | VBool a, VBool b => Bool.eqb a b
  | VBool a, VInt z | VInt z, VBool a => Z_of_bool a =? z
  | VBool a, VFloat f | VFloat f, VBool a => num_eq_float (Z_of_bool a) f
  | VInt a, VInt b => a =? b
  | VInt z, VFloat f | VFloat f, VInt z => num_eq_float z f
  | VFloat f, VFloat g => SFeqb f g
  | VStr s, VStr t => String.eqb s t
  | VList xs, VList ys =>
      (fix all2 (xs : list pyval) (ys : list pyval) : bool :=
         match xs, ys with
         | [], [] => true
         | a :: xs', b :: ys' => py_eq a b && all2 xs' ys'
         | _, _ => false
         end) xs ys
  | VDict xs, VDict ys =>
      (length xs =? length ys)%nat &&
      (fix sub (xs : list (string * pyval)) : bool :=
         match xs with
         | [] => true
         | (k, a) :: xs' =>
             match dict_get ys k with
             | Some b => py_eq a b && sub xs'
             | None => false
             end
         end) xs
  | _, _ => false
  end.

Definition py_ne (x y : pyval) : bool := negb (py_eq x y).

(** ** [int(x)] and [float(x)]

    Text is taken as Python takes an ASCII [str]: surrounding white space is
    dropped, single underscores may separate digits, and what is left must be
    a whole literal. *)

Definition is_space (c : ascii) : bool :=
  let n := nat_of_ascii c in
  ((9 <=? n) && (n <=? 13) || (n =? 32))%nat.

Definition is_digit (c : ascii) : bool :=
  let n := nat_of_ascii c in
  ((48 <=? n) && (n <=? 57))%nat.

Definition digit_val (c : ascii) : Z := Z.of_nat (nat_of_ascii c) - 48.

Definition lower (c : ascii) : ascii :=
  let n := nat_of_ascii c in
  if ((65 <=? n) && (n <=? 90))%nat then ascii_of_nat (n + 32) else c.

Fixpoint lstrip (l : list ascii) : list ascii :=
  match l with
  | c :: rest => if is_space c then lstrip rest else l
  | [] => []
  end.

Definition strip (l : list ascii) : list ascii := rev (lstrip (rev (lstrip l))).

(** An underscore must stand between two digits. *)
Fixpoint drop_underscores (prev_digit : bool) (l : list ascii) : option (list ascii) :=
  match l with
  | [] => Some []
  | c :: rest =>
      if Ascii.eqb c "_" then
        match rest with
        | d :: _ => if prev_digit && is_digit d then drop_underscores false rest else None
        | [] => None
        end
      else (c ::.) <$> drop_underscores (is_digit c) rest
  end.

Fixpoint span_digits (l : list ascii) : list ascii * list ascii :=
  match l with
  | c :: rest =>
      if is_digit c then let '(ds, tl) := span_digits rest in (c :: ds, tl)
      else ([], l)
  | [] => ([], [])
  end.

Definition digits_val (ds : list ascii) : Z :=
  fold_left (fun acc c => 10 * acc + digit_val c) ds 0.

(** An optional sign: [true] for a minus. *)
Definition take_sign (l : list ascii) : bool * list ascii :=
  match l with
  | c :: rest =>
      if Ascii.eqb c "-" then (true, rest)
      else if Ascii.eqb c "+" then (false, rest)
      else (false, l)
  | [] => (false, [])
  end.

Definition int_of_string (s : string) : option Z :=
  let '(neg, body) := take_sign (strip (list_ascii_of_string s)) in
  match drop_underscores false body with
  | Some ds =>
      match span_digits ds with
      | (d :: ds', []) => Some (let v := digits_val (d :: ds') in if neg then - v else v)
      | _ => None
      end
  | None => None
  end.

(** The binary64 value nearest to [m * 10 ^ e] for [m > 0], ties to even.
    For a negative [e] the quotient is taken with 64 spare bits and a sticky
    last bit, so that rounding it rounds the exact value. *)
Definition float_of_decimal (neg : bool) (m : Z) (e : Z) : spec_float :=
  match m with
  | Z.pos p =>
      if 0 <=? e then binary_round prec emax neg (Z.to_pos (m * 10 ^ e)) 0
      else
        let d := 10 ^ (- e) in
        let s := Z.max 0 (Z.log2 d - Z.log2 m + 64) in
        let q := (m * 2 ^ s) / d in
        let r := (m * 2 ^ s) mod d in
        binary_round prec emax neg (Z.to_pos (2 * q + (if r =? 0 then 0 else 1))) (- (s + 1))
  | _ => S754_zero neg
  end.

(** [e] or [E], an optional sign and at least one digit; [None] when the
    exponent is malformed. *)
Definition take_exponent (l : list ascii) : option (Z * list ascii) :=
  match l with
  | c :: rest =>
      if Ascii.eqb (lower c) "e" then
        let '(neg, rest') := take_sign rest in
        match span_digits rest' with
        | (d :: ds, tl) => Some (let v := digits_val (d :: ds) in if neg then - v else v, tl)
        | ([], _) => None
        end
      else Some (0, l)
  | [] => Some (0, [])
  end.

Definition take_fraction (l : list ascii) : list ascii * list ascii :=
  match l with
  | c :: rest => if Ascii.eqb c "." then span_digits rest else ([], l)
  | [] => ([], [])
  end.

Definition float_of_string (s : string) : option spec_float :=
  match drop_underscores false (strip (list_ascii_of_string s)) with
  | None => None
  | Some l =>
      let '(neg, body) := take_sign l in
      let word := string_of_list_ascii (map lower body) in
      if String.eqb word "inf" || String.eqb word "infinity" then Some (S754_infinity neg)
      else if String.eqb word "nan" then Some S754_nan
      else
        let '(ip, tl) := span_digits body in
        let '(fp, tl') := take_fraction tl in
        match (ip ++ fp)%list with
        | [] => None
        | d :: ds =>
            match take_exponent tl' with
            | Some (ex, []) =>
                Some (float_of_decimal neg (digits_val (d :: ds)) (ex - Z.of_nat (length fp)))
            | _ => None
            end
        end
  end.

Definition py_float (x : pyval) : result spec_float :=
  match x with
  | VFloat f => Ok f
  | VInt z =>
      match float_of_Z z with
      | S754_infinity _ => Raise OverflowError
      | f => Ok f
      end
  | VBool b => Ok (float_of_Z (Z_of_bool b))
  | VStr s =>
      match float_of_string s with
      | Some f => Ok f
      | None => Raise ValueError
      end
  | _ => Raise TypeError
  end.

Definition py_int (x : pyval) : result Z :=
  match x with
  | VInt z => Ok z
  | VBool b => Ok (Z_of_bool b)
  | VFloat f =>
      match f with
      | S754_nan => Raise ValueError
      | S754_infinity _ => Raise OverflowError
      | S754_zero _ => Ok 0
      | S754_finite s m e =>
          let a := if 0 <=? e then Z.pos m * 2 ^ e else Z.pos m / 2 ^ (- e) in
          Ok (if s then - a else a)
      end
  | VStr s =>
      match int_of_string s with
      | Some z => Ok z
      | None => Raise ValueError
      end
  | _ => Raise TypeError
  end.

End PyValue.

(* ===================================================================== *)
(** * fields.py *)
(* ===================================================================== *)

Module Fields.
Import PyValue.

(** The library calls whose results the code only passes along: the built-in
    [str] and [hashlib.md5(data).hexdigest()].  Every statement below holds
    for any such pair of functions. *)
Class Builtins : Type := {
  py_str : pyval -> string;
  md5_hexdigest : string -> string
}.

(** The class an instance was made from. *)
Inductive field_class : Type :=
| BaseField
| StringField
| IntField
| FloatField
| DateTimeField.

(** The arguments of [Field.__init__].  A callable takes a value and returns
    one or raises. *)
Record Field : Type := mkField {
  f_class : field_class;
  name : string;
  arg_raw_name : option string;
  default_value : pyval;
  arg_value_parser : option (pyval -> result pyval);
  value_validator : option (pyval -> result pyval);
  value_converter : option (pyval -> result pyval)
}.

(** [self._raw_name = raw_name if raw_name is not None else name] *)
Definition raw_name (f : Field) : string :=
  match arg_raw_name f with
  | Some s => s
  | None => name f
  end.

(** [self._splited_key_names = self.raw_name.split(".")] *)
Definition splited_key_names (f : Field) : list string := split "." (raw_name f).

(** The [type] property, overridden by each subclass. *)
Definition type (f : Field) : string :=
  match f_class f with
  | BaseField => "BLOB"
  | StringField => "TEXT"
  | IntField => "INTEGER"
  | FloatField => "REAL"
  | DateTimeField => "INTEGER"
  end.

(** The loop of [Field.default_value_parser]: [None] is its early
    [return None], [Some r] the value the loop ends on. *)
Fixpoint walk (keys : list string) (r : pyval) : option pyval :=
  match keys with
  | [] => Some r
  | key :: rest =>
      match r with
      | VDict d =>
          match dict_get d key with
          | Some v => walk rest v
          | None => None
          end
      | _ => None
      end
  end.

(** [x is False] *)
Definition is_False (x : pyval) : bool :=
  match x with
  | VBool false => true
  | _ => false
  end.

Definition Field_default_value_parser (f : Field) (record : pyval) : result pyval :=
  match walk (splited_key_names f) record with
  | None => Ok VNone
  | Some r =>
      checked ← match value_validator f with
                | Some validator =>
                    verdict ← validator r;
                    if is_False verdict then Raise ValueError else Ok r
                | None => Ok r
                end;
      match value_converter f with
      | Some converter => converter checked
      | None => Ok checked
      end
  end.

Section Parsers.
Context `{Builtins}.

Definition String_default_value_parser (f : Field) (record : pyval) : result pyval :=
  record ← Field_default_value_parser f record;
  match record with
  | VNone => Ok VNone
  | _ => Ok (VStr (py_str record))
  end.

Definition Int_default_value_parser (f : Field) (record : pyval) : result pyval :=
  record ← Field_default_value_parser f record;
  match record with
  | VNone => Ok VNone
  | _ => VInt <$> py_int record
  end.

Definition Float_default_value_parser (f : Field) (record : pyval) : result pyval :=
  record ← Field_default_value_parser f record;
  match record with
  | VNone => Ok (VFloat nan)
  | _ => VFloat <$> py_float record
  end.

(** [self.default_value_parser], resolved on the instance's class. *)
Definition default_value_parser (f : Field) (record : pyval) : result pyval :=
  match f_class f with
  | StringField => String_default_value_parser f record
  | IntField => Int_default_value_parser f record
  | FloatField => Float_default_value_parser f record
  | BaseField | DateTimeField => Field_default_value_parser f record
  end.

(** [self._value_parser = value_parser if value_parser is not None
    else self.default_value_parser], then [parse] calls it. *)
Definition parse (f : Field) (record : pyval) : result pyval :=
  match arg_value_parser f with
  | Some value_parser => value_parser record
  | None => default_value_parser f record
  end.

End Parsers.

(** ** What "a missing path" means, stated on the record *)

(** [path_to r keys v]: following [keys] through nested dicts from [r]
    arrives at [v]. *)
Inductive path_to : pyval -> list string -> pyval -> Prop :=
| path_here r : path_to r [] r
| path_step d key v keys w :
    dict_get d key = Some v -> path_to v keys w -> path_to (VDict d) (key :: keys) w.

(** [r] offers no entry [key]: it is not a dict, or lacks the key. *)
Definition blocked (r : pyval) (key : string) : Prop :=
  match r with
  | VDict d => dict_get d key = None
  | _ => True
  end.

(** Some segment of [keys] cannot be followed from [record]. *)
Definition path_missing (record : pyval) (keys : list string) : Prop :=
  exists pre key post v,
    keys = (pre ++ key :: post)%list /\ path_to record pre v /\ blocked v key.

End Fields.

(* ===================================================================== *)
(** * The storage collaborator: what [collector.py] asks of [sqlite3] *)
(* ===================================================================== *)

Module Storage.
Import PyValue.

(** The schema statements [__init_sqlite] issues. *)
Inductive ddl : Type :=
| DropTableIfExists (tbl : string)
| CreateTableIfNotExists (tbl : string) (columns : list (string * string))
| CreateIndexIfNotExists (index tbl : string) (columns : list string)
| CreateIndex (index tbl : string) (columns : list string).

(** What the engine decides on its own: whether it accepts a schema statement
    (names, syntax), and the value a column of a declared type keeps for a
    bound value (its type affinity).  Every statement below holds for any
    engine. *)
Class Engine : Type := {
  ddl_ok : ddl -> bool;
  affinity : string -> pyval -> pyval
}.

(** A database file holds the collection's table, when it exists, as the
    list of its rows in insertion order, each row being the field columns
    followed by [__id], and the names of the indexes on it. *)
Record database : Type := mkDatabase {
  table : option (list (list pyval));
  indexes : gset string
}.

Definition empty_database : database := {| table := None; indexes := ∅ |}.

(** The rows a connection finds when it opens. *)
Definition rows_in (db : database) : list (list pyval) :=
  match table db with
  | Some rows => rows
  | None => []
  end.

Definition row_count (db : database) : nat :=
  match table db with
  | Some rows => length rows
  | None => 0%nat
  end.

(** An open connection: the rows as this connection sees them, the rows a
    crash would leave behind, and, for every [commit()] so far, the number of
    rows it made durable. *)
Record connection : Type := mkConnection {
  working : database;
  durable : database;
  commit_log : list nat
}.

(** The files on disk, by name. *)
Definition connect (in_memory : bool) (file : string) (disk : gmap string database)
  : connection :=
  let db := if in_memory then empty_database
            else match disk !! file with
                 | Some db => db
                 | None => empty_database
                 end in
  {| working := db; durable := db; commit_log := [] |}.

Definition existing_rows (c : connection) : list (list pyval) := rows_in (working c).

Definition commit (c : connection) : connection :=
  {| working := working c;
     durable := working c;
     commit_log := (commit_log c ++ [row_count (working c)])%list |}.

Definition close (in_memory : bool) (file : string) (c : connection)
  (disk : gmap string database) : gmap string database :=
  if in_memory then disk else <[file := durable c]> disk.

Definition run_ddl (s : ddl) (db : database) : database :=
  match s with
  | DropTableIfExists _ => {| table := None; indexes := ∅ |}
  | CreateTableIfNotExists _ _ =>
      {| table := Some (match table db with Some rows => rows | None => [] end);
         indexes := indexes db |}
  | CreateIndexIfNotExists index _ _ | CreateIndex index _ _ =>
      {| table := table db; indexes := {[index]} ∪ indexes db |}
  end.

(** Binding a Python value as a statement parameter: what SQLite receives,
    read back as Python reads it. *)
Definition bind_param (v : pyval) : result pyval :=
  match v with
  | VNone => Ok VNone
  | VBool b => Ok (VInt (Z_of_bool b))
  | VInt z => if (- 2 ^ 63 <=? z) && (z <? 2 ^ 63) then Ok (VInt z) else Raise OverflowError
  | VFloat f => Ok (if is_nan f then VNone else VFloat f)
  | VStr s => Ok (VStr s)
  | VList _ | VDict _ => Raise SqliteError
  end.

Section Statements.
Context `{Engine}.

Definition execute_ddl (s : ddl) (c : connection) : result connection :=
  if ddl_ok s
  then Ok {| working := run_ddl s (working c);
             durable := durable c;
             commit_log := commit_log c |}
  else Raise SqliteError.

(** The row an [INSERT] of [values] with identifier [id] leaves in a table
    whose field columns are declared with [types]. *)
Definition stored_row (types : list string) (values : list pyval) (id : Z)
  : result (list pyval) :=
  bound ← mapM bind_param values;
  Ok (zip_with affinity types bound ++ [VInt id])%list.

(** [INSERT INTO tbl (__id, columns) VALUES (id, ?, ...)] *)
Definition execute_insert (types : list string) (id : Z) (values : list pyval)
  (c : connection) : result connection :=
  match table (working c) with
  | None => Raise SqliteError
  | Some rows =>
      row ← stored_row types values id;
      Ok {| working := {| table := Some (rows ++ [row])%list;
                          indexes := indexes (working c) |};
            durable := durable c;
            commit_log := commit_log c |}
  end.

(** [SELECT * FROM tbl] *)
Definition select_all (c : connection) : result (list (list pyval)) :=
  match table (working c) with
  | Some rows => Ok rows
  | None => Raise SqliteError
  end.

(** [SELECT COUNT(1) FROM tbl] *)
Definition select_count (c : connection) : result Z :=
  match table (working c) with
  | Some rows => Ok (Z.of_nat (length rows))
  | None => Raise SqliteError
  end.

(** [SELECT COUNT(1) FROM sqlite_master WHERE type='index' AND ... name=index] *)
Definition count_index (index : string) (c : connection) : Z :=
  if decide (index ∈ indexes (working c)) then 1 else 0.

End Statements.

End Storage.

(* ===================================================================== *)
(** * collector.py *)
(* ===================================================================== *)

Module Collector.
Import PyValue Fields Storage.

(** The arguments of [JsonDataCollector.__init__], fixed for the life of the
    object.  [unique_keys] and [sorted_keys] are the lists after the [None]
    defaults are replaced by [[]].  An error handler returns ([None]) or
    raises ([Some e]). *)
Record config : Type := mkConfig {
  collection_name : string;
  fields : list Field;
  in_memory : bool;
  unique_keys : list Z;
  sorted_keys : list (list Z);
  error_handler : option (exn -> pyval -> option exn);
  skip_duplicate : bool;
  append : bool;
  batch_size : Z
}.

(** The attributes the object mutates: [_sqlite], [_hash_keys], [_inc_id]. *)
Record collector : Type := mkCollector {
  sqlite : connection;
  hash_keys : gmap string (list (list pyval));
  inc_id : Z
}.

(** ** Code that mutates the collector and may raise half-way *)

Definition M (A : Type) : Type := collector -> collector * result A.

Definition pure {A : Type} (a : A) : M A := fun st => (st, Ok a).
Definition fail {A : Type} (e : exn) : M A := fun st => (st, Raise e).
Definition lift {A : Type} (r : result A) : M A := fun st => (st, r).
Definition and_then {A B : Type} (m : M A) (k : A -> M B) : M B :=
  fun st =>
    match m st with
    | (st', Ok a) => k a st'
    | (st', Raise e) => (st', Raise e)
    end.
Definition get_state : M collector := fun st => (st, Ok st).
Definition set_state (st : collector) : M unit := fun _ => (st, Ok tt).

Notation "x <~ m ; k" := (and_then m (fun x => k))
  (at level 20, m at level 100, k at level 200, only parsing).

(** A parsed record: [{f.name: f.parse(record) for f in self.fields}]. *)
Abbreviation row := (gmap string pyval).

(** [r[key]] on a dict. *)
Definition row_get (r : row) (key : string) : result pyval :=
  match r !! key with
  | Some v => Ok v
  | None => Raise KeyError
  end.

(** [bucket.append(keys)], or a new bucket. *)
Definition record_keys (r_hash : string) (keys : list pyval)
  (index : gmap string (list (list pyval))) : gmap string (list (list pyval)) :=
  match index !! r_hash with
  | None => <[r_hash := [keys]]> index
  | Some bucket => <[r_hash := (bucket ++ [keys])%list]> index
  end.

Section Methods.
Context `{Builtins} `{Engine}.
Variable cfg : config.

Definition file_name : string := String.append (collection_name cfg) ".sqlite".

(** The dict comprehension of [add]: the fields are parsed in order, the
    first failure ends it, and a later field of the same name overwrites an
    earlier one. *)
Fixpoint parse_fields (fs : list Field) (record : pyval) (acc : row) : result row :=
  match fs with
  | [] => Ok acc
  | f :: rest =>
      v ← parse f record;
      parse_fields rest record (<[name f := v]> acc)
  end.

(** [r[self.fields[key_id].name]] *)
Definition key_value (r : row) (key_id : Z) : result pyval :=
  f ← py_getitem (fields cfg) key_id;
  row_get r (name f).

(** [tuple(r[self.fields[key_id].name] for key_id in self._unique_keys)] *)
Definition uniq_keys_of (r : row) : result (list pyval) :=
  mapM (key_value r) (unique_keys cfg).

(** [list(r[x.name] for x in self.fields)] *)
Definition values_of (r : row) : result (list pyval) :=
  mapM (fun x => row_get r (name x)) (fields cfg).

(** [__hash_unique_key], on a parsed record ([inl]) or on a row read back from
    the table ([inr]). *)
Definition hash_unique_key (record : row + list pyval) : result string :=
  if (length (unique_keys cfg) =? 0)%nat then Raise RuntimeError
  else
    parts ← mapM (fun uniq_key_id =>
                    match record with
                    | inl r => py_str <$> key_value r uniq_key_id
                    | inr rec => py_str <$> py_getitem rec uniq_key_id
                    end) (unique_keys cfg);
    Ok (md5_hexdigest (String.concat "" parts)).

(** [__tuple_eq]: the loop over [range(0, len(x))], at index [i]. *)
Fixpoint tuple_eq_from (i : Z) (x y : list pyval) : result bool :=
  match x with
  | [] => Ok true
  | xi :: x' =>
      yi ← py_getitem y i;
      if py_ne xi yi then Ok false else tuple_eq_from (i + 1) x' y
  end.

Definition tuple_eq (x y : list pyval) : result bool := tuple_eq_from 0 x y.

(** The [for r_compared in bucket] loop of [__has_duplicate]. *)
Fixpoint bucket_has (bucket : list (list pyval)) (r_uniq_keys : list pyval) : result bool :=
  match bucket with
  | [] => Ok false
  | r_compared :: rest =>
      same ← tuple_eq r_compared r_uniq_keys;
      if same : bool then Ok true else bucket_has rest r_uniq_keys
  end.

Definition has_duplicate (r : row) (r_hash : string) : M bool :=
  st <~ get_state;
  match hash_keys st !! r_hash with
  | None => pure false
  | Some bucket =>
      r_uniq_keys <~ lift (uniq_keys_of r);
      lift (bucket_has bucket r_uniq_keys)
  end.

(** [self._sqlite.execute("INSERT ...", values)] *)
Definition sqlite_insert (r_id : Z) (values : list pyval) : M unit :=
  fun st =>
    match execute_insert (map type (fields cfg)) r_id values (sqlite st) with
    | Ok c => ({| sqlite := c; hash_keys := hash_keys st; inc_id := inc_id st |}, Ok tt)
    | Raise e => (st, Raise e)
    end.

Definition sqlite_commit : M unit :=
  fun st =>
    ({| sqlite := commit (sqlite st); hash_keys := hash_keys st; inc_id := inc_id st |},
     Ok tt).

(** The body of the [if] in [__insert]. *)
Definition store (r : row) (r_hash : string) : M unit :=
  st <~ get_state;
  let r_id := inc_id st in
  values <~ lift (values_of r);
  _ <~ sqlite_insert r_id values;
  r_uniq_keys <~ lift (uniq_keys_of r);
  st <~ get_state;
  set_state {| sqlite := sqlite st;
               hash_keys := record_keys r_hash r_uniq_keys (hash_keys st);
               inc_id := inc_id st + 1 |}.

(** The last statement of [__insert]:
    [if self._inc_id % self._batch_size == 0: self._sqlite.commit()]. *)
Definition commit_on_boundary : M unit :=
  st <~ get_state;
  if batch_size cfg =? 0 then fail ZeroDivisionError
  else if inc_id st mod batch_size cfg =? 0 then sqlite_commit
  else pure tt.

(** [__insert] *)
Definition insert (r : row) : M unit :=
  r_hash <~ lift (hash_unique_key (inl r));
  wanted <~ (if negb (skip_duplicate cfg) then pure true
             else found <~ has_duplicate r r_hash; pure (negb found));
  _ <~ (if wanted : bool then store r r_hash else pure tt);
  commit_on_boundary.

(** The [try] body of [add] for one record. *)
Definition ingest (record : pyval) : M unit :=
  r_parsed <~ lift (parse_fields (fields cfg) record ∅);
  insert r_parsed.

(** What a call of [add] leaves: the collector, the calls made to the error
    handler, and the exception that left [add], if one did. *)
Record outcome : Type := mkOutcome {
  final : collector;
  handled : list (exn * pyval);
  raised : option exn
}.

(** The [for record in r_list] loop of [add]. *)
Fixpoint add_loop (r_list : list pyval) (st : collector) (calls : list (exn * pyval))
  : outcome :=
  match r_list with
  | [] => {| final := st; handled := calls; raised := None |}
  | record :: rest =>
      match ingest record st with
      | (st', Ok _) => add_loop rest st' calls
      | (st', Raise e) =>
          if is_Exception e then
            match error_handler cfg with
            | None => add_loop rest st' calls
            | Some handler =>
                match handler e record with
                | None => add_loop rest st' (calls ++ [(e, record)])%list
                | Some e' =>
                    {| final := st';
                       handled := (calls ++ [(e, record)])%list;
                       raised := Some e' |}
                end
            end
          else {| final := st'; handled := calls; raised := Some e |}
      end
  end.

(** [add]: [r_list = r if isinstance(r, list) else list(r)], then the loop. *)
Definition add (r : pyval) (st : collector) : outcome :=
  match r with
  | VList r_list => add_loop r_list st []
  | _ =>
      match py_list r with
      | Ok r_list => add_loop r_list st []
      | Raise e => {| final := st; handled := []; raised := Some e |}
      end
  end.

(** Several calls of [add] in a row, whatever each leaves behind. *)
Definition add_all (calls : list pyval) (st : collector) : collector :=
  fold_left (fun st r => final (add r st)) calls st.

(** [__del__]: commit, close; the file now holds what was committed. *)
Definition del (st : collector) (disk : gmap string database) : gmap string database :=
  close (in_memory cfg) file_name (commit (sqlite st)) disk.

(** ** [__init_sqlite] *)

(** [",".join(...)] is left to the engine: a statement carries the column
    names as a list. *)
Definition column_names (key_ids : list Z) : result (list string) :=
  mapM (fun key_id => name <$> py_getitem (fields cfg) key_id) key_ids.

Definition sorted_key_index_name (sorted_key_pair : list Z) : string :=
  String.append "idx_sk_" (String.concat "_" (map (fun x => py_str (VInt x)) sorted_key_pair)).

(** The [for sorted_key_pair in self._sorted_keys] loop. *)
Fixpoint create_sorted_indexes (pairs : list (list Z)) (c : connection) : result connection :=
  match pairs with
  | [] => Ok c
  | sorted_key_pair :: rest =>
      let index := sorted_key_index_name sorted_key_pair in
      sorted_key_columns ← column_names sorted_key_pair;
      c' ← (if count_index index c =? 0
            then execute_ddl (CreateIndex index (collection_name cfg) sorted_key_columns) c
            else Ok c);
      create_sorted_indexes rest c'
  end.

(** The first half of [__init_sqlite]: table and indexes. *)
Definition setup_schema (c : connection) : result connection :=
  c ← (if negb (append cfg)
       then execute_ddl (DropTableIfExists (collection_name cfg)) c
       else Ok c);
  let stmt_fields := map (fun field => (name field, type field)) (fields cfg) in
  c ← execute_ddl (CreateTableIfNotExists (collection_name cfg) stmt_fields) c;
  c ← execute_ddl (CreateIndexIfNotExists "index_id" (collection_name cfg) ["__id"]) c;
  c ← (if (0 <? length (unique_keys cfg))%nat
       then unique_key_columns ← column_names (unique_keys cfg);
            execute_ddl (CreateIndexIfNotExists "idx_id" (collection_name cfg)
                           unique_key_columns) c
       else Ok c);
  let c := commit c in
  c ← create_sorted_indexes (sorted_keys cfg) c;
  Ok (commit c).

(** The [for rec in cursor_existed] loop: the in-memory hash table is built
    from the rows already stored. *)
Fixpoint rehydrate (rows : list (list pyval)) (index : gmap string (list (list pyval)))
  : result (gmap string (list (list pyval))) :=
  match rows with
  | [] => Ok index
  | rec :: rest =>
      rec_hash ← hash_unique_key (inr rec);
      rec_keys ← mapM (py_getitem rec) (unique_keys cfg);
      rehydrate rest (record_keys rec_hash rec_keys index)
  end.

(** The second half of [__init_sqlite]: hash table and identifier counter. *)
Definition prepare_state (c : connection) : result collector :=
  index ← (if append cfg
           then rows ← select_all c; rehydrate rows ∅
           else Ok ∅);
  next ← (if append cfg
          then existing_count ← select_count c; Ok (existing_count + 1)
          else Ok 1);
  Ok {| sqlite := c; hash_keys := index; inc_id := next |}.

(** [__init__], which ends in [__init_sqlite], on the files of [disk]. *)
Definition init (disk : gmap string database) : result collector :=
  c ← setup_schema (connect (in_memory cfg) file_name disk);
  prepare_state c.

(** The rows of the backing table as the collector sees them. *)
Definition rows_of (st : collector) : list (list pyval) :=
  match table (working (sqlite st)) with
  | Some rows => rows
  | None => []
  end.

(** The [__id] of a row: its last column. *)
Definition row_id (rec : list pyval) : option pyval := last rec.

End Methods.

(** ** Vocabulary for the statements *)

(** Nothing but commits happened between [st] and [st']: same rows, same
    hash table, same counter. *)
Definition same_content (st st' : collector) : Prop :=
  working (sqlite st') = working (sqlite st)
  /\ hash_keys st' = hash_keys st
  /\ inc_id st' = inc_id st.

(** What one record can do to the collector: nothing, or one more row that
    carries the counter's value, and the counter one further. *)
Inductive effect (st st' : collector) : Prop :=
| effect_kept : same_content st st' -> effect st st'
| effect_stored (rows : list (list pyval)) (rec : list pyval) :
    table (working (sqlite st)) = Some rows ->
    table (working (sqlite st')) = Some (rows ++ [rec])%list ->
    row_id rec = Some (VInt (inc_id st)) ->
    inc_id st' = inc_id st + 1 ->
    effect st st'.

(** The [if] of [__insert] is entered: duplicates are not skipped, or the
    search for one came back with [False]. *)
Definition wanted `{Builtins} (cfg : config) (r : row) (h : string) (st : collector) : Prop :=
  skip_duplicate cfg = false \/ snd (has_duplicate cfg r h st) = Ok false.

(** Every tuple in every bucket has [n] items. *)
Definition buckets_of_length (n : nat) (index : gmap string (list (list pyval))) : Prop :=
  forall (h : string) (bucket : list (list pyval)),
    index !! h = Some bucket -> Forall (fun x => length x = n) bucket.

(** [rec] is the row an insert of the parsed record [r] under [id] leaves. *)
Definition stored_as `{Engine} (cfg : config) (r : row) (id : Z) (rec : list pyval) : Prop :=
  exists values : list pyval,
    values_of cfg r = Ok values
    /\ stored_row (map type (fields cfg)) values id = Ok rec.

(** [st'] has the rows of [st] followed by new ones whose identifiers count
    up from the counter of [st], and its counter is one past the last. *)
Definition appended (st st' : collector) : Prop :=
  exists new : list (list pyval),
    rows_of st' = (rows_of st ++ new)%list
    /\ map row_id new = map (fun i => Some (VInt i)) (seqZ (inc_id st) (Z.of_nat (length new)))
    /\ inc_id st' = inc_id st + Z.of_nat (length new).

End Collector.

(* ===================================================================== *)
(** * collector.py: the query and export methods *)
(* ===================================================================== *)

Module Facade.
Import PyValue Fields Storage Collector.

(** The double quote character. *)
Definition dquote : ascii := ascii_of_nat 34.

(** [val.replace(dq, dq + dq)], with [dq] the double quote. *)
Fixpoint double_quotes (val : string) : string :=
  match val with
  | EmptyString => EmptyString
  | String c rest =>
      if Ascii.eqb c dquote then String c (String c (double_quotes rest))
      else String c (double_quotes rest)
  end.

(** What [query_as_csv] does with the text: return it, or write it to a file
    and return [None].  Failures of the file system are not modelled. *)
Inductive csv_output : Type :=
| Returned (csv_str : string)
| Written (file_name : string) (csv_str : string).

(** The row factory of [query]: [{k: v for k, v in zip(columns, y)}]; a later
    column of the same name overwrites an earlier one. *)
Definition row_dict (columns : list string) (y : list pyval) : gmap string pyval :=
  fold_left (fun d kv => <[fst kv := snd kv]> d) (zip columns y) ∅.

Section Queries.
Context `{Builtins} `{Engine}.

(** What the engine makes of a statement the caller wrote: the description
    of the cursor ([None] when the statement returns no rows) and the rows
    fetched, or an error.  Statements given to [query] are taken to read
    only. *)
Variable run_sql :
  string -> list pyval -> connection -> result (option (list string) * list (list pyval)).

(** [os.linesep] *)
Variable linesep : string.

Variable cfg : config.

(** [SELECT * FROM collection]: the columns of the table in declared order,
    and all rows. *)
Definition select_star (params : list pyval) (c : connection)
  : result (option (list string) * list (list pyval)) :=
  match params with
  | _ :: _ => Raise SqliteError
  | [] =>
      rows ← select_all c;
      Ok (Some (map name (fields cfg) ++ ["__id"])%list, rows)
  end.

(** [__get_objects], before the row factory is applied to the rows. *)
Definition get_objects (sql : option string) (params : option (list pyval))
  (st : collector) : result (list string * list (list pyval)) :=
  let bound := match params with Some ps => ps | None => [] end in
  answer ← match sql with
           | Some text =>
               if (0 <? String.length text)%nat then run_sql text bound (sqlite st)
               else select_star bound (sqlite st)
           | None => select_star bound (sqlite st)
           end;
  match answer with
  | (Some description, res_objects) => Ok (description, res_objects)
  | (None, _) => Raise TypeError
  end.

(** [query] *)
Definition query (sql : option string) (parameters : option (list pyval))
  (st : collector) : result (list (gmap string pyval)) :=
  answer ← get_objects sql parameters st;
  Ok (map (row_dict (fst answer)) (snd answer)).

(** [__parse_val] of [query_as_csv] *)
Definition parse_val (val : pyval) : string :=
  match val with
  | VStr s => String dquote (String.append (double_quotes s) (String dquote EmptyString))
  | _ => py_str val
  end.

(** [query_as_csv] *)
Definition query_as_csv (sql : option string) (parameters : option (list pyval))
  (file_name : option string) (delimiter : string) (st : collector) : result csv_output :=
  answer ← get_objects sql parameters st;
  let csv_lines :=
    String.concat delimiter (fst answer)
      :: map (fun obj => String.concat delimiter (map parse_val obj)) (snd answer) in
  let csv_str := String.concat linesep csv_lines in
  match file_name with
  | Some path =>
      if (0 <? String.length path)%nat then Ok (Written path csv_str)
      else Ok (Returned csv_str)
  | None => Ok (Returned csv_str)
  end.

End Queries.

(** ** Reading a quoted CSV field back *)

(** The text between the opening quote and the closing one, every doubled
    quote read as one; [None] when a quote stands alone before the end or the
    closing quote is missing. *)
Fixpoint unquote_body (s : string) : option string :=
  match s with
  | EmptyString => None
  | String c rest =>
      if Ascii.eqb c dquote then
        match rest with
        | EmptyString => Some EmptyString
        | String c' rest' =>
            if Ascii.eqb c' dquote then String dquote <$> unquote_body rest' else None
        end
      else String c <$> unquote_body rest
  end.

Definition unquote (field : string) : option string :=
  match field with
  | String c rest => if Ascii.eqb c dquote then unquote_body rest else None
  | EmptyString => None
  end.

End Facade.

(* ===================================================================== *)
(** * More vocabulary for statements about the collector *)
(* ===================================================================== *)

Module Terms.
Import PyValue Fields Storage Collector.


(** Item by item, [x == y]. *)
Definition items_equal (x y : list pyval) : Prop :=
  Forall2 (fun a b => py_eq a b = true) x y.

(** The hash table holds the key tuple [keys], in the bucket of its digest. *)
Definition recorded `{Builtins} (keys : list pyval)
  (index : gmap string (list (list pyval))) : Prop :=
  exists bucket,
    index !! md5_hexdigest (String.concat "" (map py_str keys)) = Some bucket
    /\ keys ∈ bucket.

(** The storage keeps the unique-key values of [record] as they were parsed:
    the key columns of the row it leaves are the key tuple of the record. *)
Definition keeps_keys `{Builtins} `{Engine} (cfg : config) (record : pyval) : Prop :=
  forall (r : row) (id : Z) (rec : list pyval),
    parse_fields (fields cfg) record ∅ = Ok r ->
    stored_as cfg r id rec ->
    mapM (py_getitem rec) (unique_keys cfg) = uniq_keys_of cfg r.

(** The hash table is the one [__init_sqlite] would build from the rows. *)
Definition index_of_rows `{Builtins} (cfg : config) (st : collector) : Prop :=
  rehydrate cfg (rows_of st) ∅ = Ok (hash_keys st).

(** What is durable is a beginning of what is stored. *)
Definition durable_prefix (st : collector) : Prop :=
  rows_in (durable (sqlite st)) `prefix_of` rows_of st.

End Terms.

(* ===================================================================== *)
(** * The specification's claims that the code does not meet, as stated *)
(* ===================================================================== *)

Module Claims.
Import PyValue Fields Storage Collector.

Section Stated.
Context `{Builtins} `{Engine}.
Variable cfg : config.


(** An exception the storage raises on the insert of a parsed record leaves
    [add]. *)
Definition storage_failure_propagates : Prop :=
  forall (st : collector) (record : pyval) (r : row) (h : string)
         (values : list pyval) (e : exn),
    parse_fields (fields cfg) record ∅ = Ok r ->
    hash_unique_key cfg (inl r) = Ok h ->
    wanted cfg r h st ->
    values_of cfg r = Ok values ->
    execute_insert (map type (fields cfg)) (inc_id st) values (sqlite st) = Raise e ->
    raised (add cfg (VList [record]) st) = Some e.



End Stated.

End Claims.

(* ===================================================================== *)
(** * Concrete collectors and records *)
(* ===================================================================== *)

Module Demo.
Import PyValue Fields Storage Collector.

(** The statements of this development hold for every [str], every digest
    and every engine.  To run the code on a concrete input one of each is
    needed: a [str] that is Python's on [None], [bool], [int], [str] and on
    the floats used here (other values print as a placeholder), the text
    itself as its digest, and an engine that accepts every schema statement
    and stores bound values as they are. *)
Definition demo_str (v : pyval) : string :=
  match v with
  | VNone => "None"
  | VBool true => "True"
  | VBool false => "False"
  | VInt z => pretty z
  | VStr s => s
  | VFloat S754_nan => "nan"
  | VFloat f =>
      match float_to_Z_exact f with
      | Some z => String.append (pretty z) ".0"
      | None => "<float>"
      end
  | VList _ => "<list>"
  | VDict _ => "<dict>"
  end.

Definition demo_builtins : Builtins :=
  {| py_str := demo_str; md5_hexdigest := fun data => data |}.

Definition demo_engine : Engine :=
  {| ddl_ok := fun _ => true; affinity := fun _ v => v |}.

(** An error handler that returns. *)
Definition quiet_handler : exn -> pyval -> option exn := fun _ _ => None.

Definition field_of (c : field_class) (column : string) : Field :=
  {| f_class := c; name := column; arg_raw_name := None; default_value := VNone;
     arg_value_parser := None; value_validator := None; value_converter := None |}.

(** [Field("col", raw_name="a.b", default=7)] *)
Definition nested_field : Field :=
  {| f_class := BaseField; name := "col"; arg_raw_name := Some "a.b";
     default_value := VInt 7;
     arg_value_parser := None; value_validator := None; value_converter := None |}.

(** [JsonDataCollector("t", [Int("a")], unique_keys=[0], ...)] *)
Definition int_collection (skip app mem : bool) (batch : Z) : config :=
  {| collection_name := "t"; fields := [field_of IntField "a"]; in_memory := mem;
     unique_keys := [0]; sorted_keys := []; error_handler := Some quiet_handler;
     skip_duplicate := skip; append := app; batch_size := batch |}.

(** The same with the default [unique_keys=None]. *)
Definition keyless_collection (app mem : bool) : config :=
  {| collection_name := "t"; fields := [field_of IntField "a"]; in_memory := mem;
     unique_keys := []; sorted_keys := []; error_handler := Some quiet_handler;
     skip_duplicate := false; append := app; batch_size := 4096 |}.

(** [JsonDataCollector("t", [Field("a")], unique_keys=[0], ...)] *)
Definition blob_collection : config :=
  {| collection_name := "t"; fields := [field_of BaseField "a"]; in_memory := true;
     unique_keys := [0]; sorted_keys := []; error_handler := Some quiet_handler;
     skip_duplicate := false; append := false; batch_size := 4096 |}.

(** [JsonDataCollector("t", [Float("x")], unique_keys=[0],
    ignore_duplicates=True, in_memory=False, ...)] *)
Definition float_collection (app : bool) : config :=
  {| collection_name := "t"; fields := [field_of FloatField "x"]; in_memory := false;
     unique_keys := [0]; sorted_keys := []; error_handler := Some quiet_handler;
     skip_duplicate := true; append := app; batch_size := 4096 |}.

(** [{"a": n}] *)
Definition rec_a (n : Z) : pyval := VDict [("a", VInt n)].

(** [{"x": n}] and [{}], a record without the field [x]. *)
Definition rec_x (n : Z) : pyval := VDict [("x", VInt n)].
Definition rec_empty : pyval := VDict [].

Definition seven_records : pyval := VList (map rec_a [10; 20; 30; 40; 50; 60; 70]).

Definition blank : collector :=
  {| sqlite := {| working := empty_database; durable := empty_database; commit_log := [] |};
     hash_keys := ∅; inc_id := 1 |}.

(** The collector a successful construction returns. *)
Definition constructed (made : result collector) : collector :=
  match made with
  | Ok st => st
  | Raise _ => blank
  end.

End Demo.

(* ===================================================================== *)
(** * More concrete collectors and records *)
(* ===================================================================== *)

Module MoreDemo.
Import PyValue Fields Storage Collector Demo.

(** [int_collection] without an error handler. *)
Definition silent_collection : config :=
  {| collection_name := "t"; fields := [field_of IntField "a"]; in_memory := true;
     unique_keys := [0]; sorted_keys := []; error_handler := None;
     skip_duplicate := true; append := false; batch_size := 4096 |}.

(** An engine asked for a statement of the caller's: none is needed below. *)
Definition no_sql (text : string) (params : list pyval) (c : connection)
  : result (option (list string) * list (list pyval)) := Raise SqliteError.

End MoreDemo.

(* ===================================================================== *)
(** * Properties of [fields.py] *)
(* ===================================================================== *)

Module FieldsFacts.
Import PyValue Fields.

Lemma walk_blocked (keys : list string) (key : string) (r : pyval) :
  blocked r key -> walk (key :: keys) r = None.
Proof.
  destruct r; simpl; try reflexivity.
  intros ->. reflexivity.
Qed.

Lemma walk_path (pre rest : list string) (record v : pyval) :
  path_to record pre v -> walk (pre ++ rest) record = walk rest v.
Proof.
  induction 1 as [r | d key v keys w Hget _ IH]; simpl.
  - reflexivity.
  - rewrite Hget. exact IH.
Qed.

(** The loop returns early exactly when some segment cannot be followed. *)
Lemma walk_None_iff (keys : list string) (record : pyval) :
  walk keys record = None <-> path_missing record keys.
Proof.
  split.
  - revert record. induction keys as [| key rest IH]; intros record; simpl.
    + discriminate.
    + destruct record as [| | | | | | d];
        try (intros _; exists [], key, rest; eexists; split; [reflexivity |];
             split; [constructor | exact I]).
      destruct (dict_get d key) as [v |] eqn:Hget.
      * intros Hw. destruct (IH v Hw) as (pre & k & post & w & -> & Hp & Hb).
        exists (key :: pre), k, post, w. split; [reflexivity |].
        split; [econstructor; eassumption | exact Hb].
      * intros _. exists [], key, rest, (VDict d).
        split; [reflexivity |]. split; [constructor | exact Hget].
  - intros (pre & key & post & v & -> & Hp & Hb).
    rewrite (walk_path _ _ _ _ Hp). apply walk_blocked, Hb.
Qed.

Lemma Field_parser_missing (f : Field) (record : pyval) :
  path_missing record (splited_key_names f) ->
  Field_default_value_parser f record = Ok VNone.
Proof.
  intros Hm. apply walk_None_iff in Hm.
  unfold Field_default_value_parser. rewrite Hm. reflexivity.
Qed.

(** C9.  The default extractor of a base [Field] whose source path is
    ["a.b"], applied to [{"a": {"x": 1}}], returns [None] and raises nothing;
    and whenever some segment of the path is absent, or the value reached is
    not a dict, it returns [None] whatever the field's default value,
    validator and converter are. *)
Theorem C9_unknown_path_yields_none :
  (forall f : Field,
      raw_name f = "a.b" ->
      Field_default_value_parser f (VDict [("a", VDict [("x", VInt 1)])]) = Ok VNone)
  /\
  (forall (f : Field) (record : pyval),
      path_missing record (splited_key_names f) ->
      Field_default_value_parser f record = Ok VNone).
Proof.
  split.
  - intros f Hraw. unfold Field_default_value_parser, splited_key_names.
    rewrite Hraw. reflexivity.
  - exact Field_parser_missing.
Qed.

Section Typed.
Context `{Builtins}.

Lemma typed_parser_missing (f : Field) (record : pyval) :
  path_missing record (splited_key_names f) ->
  default_value_parser f record =
    match f_class f with
    | FloatField => Ok (VFloat nan)
    | _ => Ok VNone
    end.
Proof.
  intros Hm. apply Field_parser_missing in Hm.
  unfold default_value_parser, String_default_value_parser,
    Int_default_value_parser, Float_default_value_parser.
  destruct (f_class f); rewrite Hm; reflexivity.
Qed.

(** C8.  A [Float] field whose extraction yields the string ["3"] parses to
    the float 3.0; one whose path is missing parses to NaN, while [Int] and
    [String] fields (and the untyped ones) parse a missing path to [None]. *)
Theorem C8_real_field_typing :
  (forall (f : Field) (record : pyval),
      f_class f = FloatField ->
      arg_value_parser f = None ->
      Field_default_value_parser f record = Ok (VStr "3") ->
      parse f record = Ok (VFloat (float_of_Z 3)))
  /\
  (float_of_Z 3 = S754_finite false 6755399441055744 (-51)
   /\ float_to_Z_exact (float_of_Z 3) = Some 3)
  /\
  (forall (f : Field) (record : pyval),
      arg_value_parser f = None ->
      path_missing record (splited_key_names f) ->
      parse f record =
        match f_class f with
        | FloatField => Ok (VFloat nan)
        | IntField | StringField | BaseField | DateTimeField => Ok VNone
        end).
Proof.
  split; [| split].
  - intros f record Hc Hp Hx. unfold parse. rewrite Hp.
    unfold default_value_parser. rewrite Hc.
    unfold Float_default_value_parser. rewrite Hx. reflexivity.
  - split; reflexivity.
  - intros f record Hp Hm. unfold parse. rewrite Hp.
    rewrite (typed_parser_missing _ _ Hm). destruct (f_class f); reflexivity.
Qed.

End Typed.

End FieldsFacts.

(* ===================================================================== *)
(** * Properties of [collector.py] *)
(* ===================================================================== *)

Module CollectorFacts.
Import PyValue Fields Storage Collector.

Section Facts.
Context `{Builtins} `{Engine}.
Variable cfg : config.

Lemma result_bind_Ok {A B} (m : result A) (k : A -> result B) (b : B) :
  m ≫= k = Ok b -> exists a, m = Ok a /\ k a = Ok b.
Proof. destruct m as [a | e]; simpl; [eauto | discriminate]. Qed.

Lemma mapM_result_cons {A B} (f : A -> result B) (x : A) (l : list A) :
  mapM f (x :: l) = (y ← f x; k ← mapM f l; Ok (y :: k)).
Proof. reflexivity. Qed.

Lemma mapM_fmap_Ok {A B C} (f : A -> result B) (g : B -> C) (l : list A) (out : list C) :
  mapM (fun a => g <$> f a) l = Ok out ->
  exists ys, mapM f l = Ok ys /\ out = map g ys.
Proof.
  revert out. induction l as [| a l IH]; intros out.
  - intros [= <-]. exists []. split; reflexivity.
  - rewrite !mapM_result_cons. destruct (f a) as [y | e]; simpl; [| discriminate].
    destruct (mapM (fun a => g <$> f a) l) as [k | e]; simpl; [| discriminate].
    intros [= <-]. destruct (IH k eq_refl) as (ys & Hys & ->).
    exists (y :: ys). rewrite Hys. split; reflexivity.
Qed.

Lemma hash_dict_Ok (r : row) (h : string) :
  hash_unique_key cfg (inl r) = Ok h ->
  unique_keys cfg <> [] /\
  exists keys, uniq_keys_of cfg r = Ok keys
               /\ h = md5_hexdigest (String.concat "" (map py_str keys)).
Proof.
  unfold hash_unique_key.
  destruct (unique_keys cfg) as [| k ks] eqn:Hk; simpl length.
  - discriminate.
  - change (length (k :: ks) =? 0)%nat with false. cbv iota.
    intros Hb. apply result_bind_Ok in Hb as (parts & Hparts & [= <-]).
    apply mapM_fmap_Ok in Hparts as (keys & Hkeys & ->).
    split; [discriminate |]. exists keys.
    split; [unfold uniq_keys_of; rewrite Hk; exact Hkeys | reflexivity].
Qed.

Lemma has_duplicate_eq (r : row) (h : string) (st : collector) :
  has_duplicate cfg r h st =
    (st, match hash_keys st !! h with
         | None => Ok false
         | Some bucket =>
             r_uniq_keys ← uniq_keys_of cfg r;
             bucket_has bucket r_uniq_keys
         end).
Proof.
  unfold has_duplicate, and_then, get_state, lift, pure.
  destruct (hash_keys st !! h); [| reflexivity].
  destruct (uniq_keys_of cfg r); reflexivity.
Qed.

Lemma store_eq (r : row) (h : string) (st : collector) :
  store cfg r h st =
    match values_of cfg r with
    | Raise e => (st, Raise e)
    | Ok values =>
        match execute_insert (map type (fields cfg)) (inc_id st) values (sqlite st) with
        | Raise e => (st, Raise e)
        | Ok c =>
            match uniq_keys_of cfg r with
            | Raise e => ({| sqlite := c; hash_keys := hash_keys st; inc_id := inc_id st |},
                          Raise e)
            | Ok keys =>
                ({| sqlite := c;
                    hash_keys := record_keys h keys (hash_keys st);
                    inc_id := inc_id st + 1 |}, Ok tt)
            end
        end
    end.
Proof.
  unfold store, and_then, get_state, set_state, lift, sqlite_insert.
  destruct (values_of cfg r); [| reflexivity].
  destruct (execute_insert _ _ _ _); [| reflexivity].
  destruct (uniq_keys_of cfg r); reflexivity.
Qed.

Lemma insert_eq (r : row) (st : collector) :
  insert cfg r st =
    match hash_unique_key cfg (inl r) with
    | Raise e => (st, Raise e)
    | Ok h =>
        match (if negb (skip_duplicate cfg) then Ok true
               else negb <$> snd (has_duplicate cfg r h st)) with
        | Raise e => (st, Raise e)
        | Ok true =>
            match store cfg r h st with
            | (st', Ok _) => commit_on_boundary cfg st'
            | (st', Raise e) => (st', Raise e)
            end
        | Ok false => commit_on_boundary cfg st
        end
    end.
Proof.
  unfold insert. unfold and_then at 1. unfold lift at 1.
  destruct (hash_unique_key cfg (inl r)) as [h | e]; [| reflexivity].
  unfold and_then at 1.
  destruct (negb (skip_duplicate cfg)).
  - unfold pure at 1. unfold and_then. destruct (store cfg r h st) as [st' [[] | e]]; reflexivity.
  - unfold and_then at 1. rewrite has_duplicate_eq. simpl snd.
    destruct (match hash_keys st !! h with None => _ | Some _ => _ end) as [[|] | e];
      simpl; unfold pure, and_then; try reflexivity.
Qed.

Lemma commit_on_boundary_same (st st' : collector) (res : result unit) :
  commit_on_boundary cfg st = (st', res) -> same_content st st'.
Proof.
  unfold commit_on_boundary, and_then, get_state, fail, pure, sqlite_commit.
  destruct (batch_size cfg =? 0).
  - intros [= <- _]. repeat split.
  - destruct (inc_id st mod batch_size cfg =? 0); intros [= <- _]; repeat split.
Qed.

Lemma stored_row_id (types : list string) (values : list pyval) (id : Z) (rec : list pyval) :
  stored_row types values id = Ok rec -> row_id rec = Some (VInt id).
Proof.
  unfold stored_row. intros Hb.
  apply result_bind_Ok in Hb as (bound & _ & [= <-]).
  unfold row_id. apply last_snoc.
Qed.

Lemma execute_insert_Ok (types : list string) (id : Z) (values : list pyval)
  (c c' : connection) :
  execute_insert types id values c = Ok c' ->
  exists rows rec,
    table (working c) = Some rows
    /\ stored_row types values id = Ok rec
    /\ working c' = {| table := Some (rows ++ [rec])%list; indexes := indexes (working c) |}
    /\ durable c' = durable c
    /\ commit_log c' = commit_log c.
Proof.
  unfold execute_insert. destruct (table (working c)) as [rows |]; [| discriminate].
  intros Hb. apply result_bind_Ok in Hb as (rec & Hrec & [= <-]).
  exists rows, rec. repeat split; assumption.
Qed.

(** What the storage raises on an insert is an [Exception]. *)
Lemma execute_insert_Raise (types : list string) (id : Z) (values : list pyval)
  (c : connection) (e : exn) :
  execute_insert types id values c = Raise e -> e = SqliteError \/ e = OverflowError.
Proof.
  unfold execute_insert, stored_row.
  destruct (table (working c)); [| intros [= <-]; left; reflexivity].
  assert (Hm : forall vs e', mapM bind_param vs = Raise e' ->
                             e' = SqliteError \/ e' = OverflowError).
  { induction vs as [| v vs IH]; intros e'; [discriminate |].
    rewrite mapM_result_cons.
    destruct (bind_param v) as [b | e0] eqn:Hv; simpl.
    - destruct (mapM bind_param vs) as [k | e1]; simpl; [discriminate |].
      intros [= <-]. apply IH. reflexivity.
    - intros [= <-]. destruct v; simpl in Hv; try discriminate.
      + destruct (_ && _); [discriminate |]. injection Hv as <-. right; reflexivity.
      + injection Hv as <-. left; reflexivity.
      + injection Hv as <-. left; reflexivity. }
  destruct (mapM bind_param values) as [bound | e0] eqn:Hbound; simpl.
  - discriminate.
  - intros [= <-]. eapply Hm, Hbound.
Qed.

Lemma store_effect (r : row) (h : string) (st st' : collector) (res : result unit)
  (keys : list pyval) :
  uniq_keys_of cfg r = Ok keys ->
  store cfg r h st = (st', res) -> effect st st'.
Proof.
  intros Hkeys. rewrite store_eq, Hkeys.
  destruct (values_of cfg r) as [values | e].
  - destruct (execute_insert _ _ _ _) as [c | e] eqn:Hins.
    + intros [= <- _].
      apply execute_insert_Ok in Hins as (rows & rec & Ht & Hrec & Hw & _ & _).
      apply (effect_stored _ _ rows rec); simpl.
      * exact Ht.
      * rewrite Hw. reflexivity.
      * eapply stored_row_id, Hrec.
      * reflexivity.
    + intros [= <- _]. apply effect_kept. repeat split.
  - intros [= <- _]. apply effect_kept. repeat split.
Qed.

Lemma effect_then_same (st st1 st2 : collector) :
  effect st st1 -> same_content st1 st2 -> effect st st2.
Proof.
  intros [ (Hw & Hh & Hi) | rows rec Ht Ht' Hid Hinc ] (Hw' & Hh' & Hi').
  - apply effect_kept. repeat split; congruence.
  - apply (effect_stored _ _ rows rec); try congruence.
Qed.

Lemma insert_effect (r : row) (st st' : collector) (res : result unit) :
  insert cfg r st = (st', res) -> effect st st'.
Proof.
  rewrite insert_eq.
  destruct (hash_unique_key cfg (inl r)) as [h | e] eqn:Hh.
  2:{ intros [= <- _]. apply effect_kept. repeat split. }
  apply hash_dict_Ok in Hh as (_ & keys & Hkeys & _).
  destruct (if negb (skip_duplicate cfg) then _ else _) as [[|] | e].
  - destruct (store cfg r h st) as [st1 [[] | e]] eqn:Hst.
    + intros Hc. eapply effect_then_same.
      * eapply store_effect; eassumption.
      * eapply commit_on_boundary_same, Hc.
    + intros [= <- _]. eapply store_effect; eassumption.
  - intros Hc. apply effect_kept. eapply commit_on_boundary_same, Hc.
  - intros [= <- _]. apply effect_kept. repeat split.
Qed.

Lemma ingest_effect (record : pyval) (st st' : collector) (res : result unit) :
  ingest cfg record st = (st', res) -> effect st st'.
Proof.
  unfold ingest, and_then, lift.
  destruct (parse_fields (fields cfg) record ∅) as [r | e].
  - apply insert_effect.
  - intros [= <- _]. apply effect_kept. repeat split.
Qed.

Lemma appended_refl (st : collector) : appended st st.
Proof.
  exists []. rewrite app_nil_r. simpl. repeat split. lia.
Qed.

Lemma effect_appended (st st' : collector) : effect st st' -> appended st st'.
Proof.
  intros [ (Hw & Hh & Hi) | rows rec Ht Ht' Hid Hinc ].
  - exists []. unfold rows_of. rewrite Hw, Hi, app_nil_r. simpl. repeat split. lia.
  - exists [rec]. unfold rows_of. rewrite Ht, Ht'. simpl.
    split; [reflexivity |]. split; [| lia].
    rewrite Hid. reflexivity.
Qed.

Lemma appended_trans (st1 st2 st3 : collector) :
  appended st1 st2 -> appended st2 st3 -> appended st1 st3.
Proof.
  intros (n1 & Hr1 & Hi1 & Hc1) (n2 & Hr2 & Hi2 & Hc2).
  exists (n1 ++ n2)%list. rewrite Hr2, Hr1, <- app_assoc.
  split; [reflexivity |].
  rewrite length_app, map_app, Hi1, Hi2, Hc1, Hc2. split; [| lia].
  rewrite Nat2Z.inj_add, seqZ_app by lia. rewrite map_app. reflexivity.
Qed.

Lemma add_loop_appended (r_list : list pyval) (st : collector) (calls : list (exn * pyval)) :
  appended st (final (add_loop cfg r_list st calls)).
Proof.
  revert st calls. induction r_list as [| record rest IH]; intros st calls; simpl.
  - apply appended_refl.
  - destruct (ingest cfg record st) as [st' res] eqn:Hi.
    assert (Hst : appended st st') by (eapply effect_appended, ingest_effect, Hi).
    destruct res as [[] | e].
    + eapply appended_trans; [exact Hst | apply IH].
    + destruct (is_Exception e).
      * destruct (error_handler cfg) as [handler |].
        -- destruct (handler e record).
           ++ exact Hst.
           ++ eapply appended_trans; [exact Hst | apply IH].
        -- eapply appended_trans; [exact Hst | apply IH].
      * exact Hst.
Qed.

Lemma add_appended (r : pyval) (st : collector) : appended st (final (add cfg r st)).
Proof.
  unfold add. destruct r; simpl; try apply appended_refl; apply add_loop_appended.
Qed.

Lemma add_all_appended (calls : list pyval) (st : collector) :
  appended st (add_all cfg calls st).
Proof.
  revert st. induction calls as [| r calls IH]; intros st; simpl.
  - apply appended_refl.
  - eapply appended_trans; [apply add_appended | apply IH].
Qed.

(** ** [__init_sqlite] *)

Lemma execute_ddl_Ok (s : ddl) (c c' : connection) :
  execute_ddl s c = Ok c' -> working c' = run_ddl s (working c).
Proof.
  unfold execute_ddl. destruct (ddl_ok s); [| discriminate].
  intros [= <-]. reflexivity.
Qed.

Lemma create_sorted_indexes_table (pairs : list (list Z)) (c c' : connection) :
  create_sorted_indexes cfg pairs c = Ok c' ->
  table (working c') = table (working c).
Proof.
  revert c. induction pairs as [| pair rest IH]; intros c; simpl.
  - intros [= <-]. reflexivity.
  - intros Hb. apply result_bind_Ok in Hb as (cols & _ & Hb).
    apply result_bind_Ok in Hb as (c1 & Hc1 & Hrest).
    rewrite (IH _ Hrest).
    destruct (count_index _ c =? 0).
    + apply execute_ddl_Ok in Hc1. rewrite Hc1. reflexivity.
    + injection Hc1 as <-. reflexivity.
Qed.

(** After the schema statements the table exists; it is empty unless the
    collector appends, and then it has the rows it had. *)
Lemma setup_schema_table (c c' : connection) :
  setup_schema cfg c = Ok c' ->
  table (working c') =
    Some (if append cfg then existing_rows c else []).
Proof.
  unfold setup_schema. intros Hb.
  apply result_bind_Ok in Hb as (c1 & Hc1 & Hb).
  apply result_bind_Ok in Hb as (c2 & Hc2 & Hb).
  apply result_bind_Ok in Hb as (c3 & Hc3 & Hb).
  apply result_bind_Ok in Hb as (c4 & Hc4 & Hb).
  apply result_bind_Ok in Hb as (c5 & Hc5 & [= <-]).
  simpl. apply create_sorted_indexes_table in Hc5. rewrite Hc5. simpl.
  assert (H4 : table (working c4) = table (working c3)).
  { destruct (0 <? length (unique_keys cfg))%nat.
    - apply result_bind_Ok in Hc4 as (cols & _ & Hc4).
      apply execute_ddl_Ok in Hc4. rewrite Hc4. reflexivity.
    - injection Hc4 as <-. reflexivity. }
  rewrite H4. apply execute_ddl_Ok in Hc3. rewrite Hc3. simpl.
  apply execute_ddl_Ok in Hc2. rewrite Hc2. simpl.
  destruct (append cfg); simpl in Hc1.
  - injection Hc1 as <-. reflexivity.
  - apply execute_ddl_Ok in Hc1. rewrite Hc1. reflexivity.
Qed.

Lemma prepare_state_sqlite (c : connection) (st : collector) :
  prepare_state cfg c = Ok st -> sqlite st = c.
Proof.
  unfold prepare_state. intros Hb.
  apply result_bind_Ok in Hb as (index & _ & Hb).
  apply result_bind_Ok in Hb as (next & _ & [= <-]). reflexivity.
Qed.

Lemma init_truncate (disk : gmap string database) (st : collector) :
  append cfg = false ->
  init cfg disk = Ok st ->
  rows_of st = [] /\ hash_keys st = ∅ /\ inc_id st = 1.
Proof.
  intros Happ. unfold init. intros Hb.
  apply result_bind_Ok in Hb as (c & Hc & Hst).
  apply setup_schema_table in Hc. rewrite Happ in Hc.
  unfold rows_of. rewrite (prepare_state_sqlite _ _ Hst), Hc.
  unfold prepare_state in Hst. rewrite Happ in Hst. simpl in Hst.
  injection Hst as <-. repeat split.
Qed.

(** What a collector reopened in append mode starts from. *)
Lemma init_append (disk : gmap string database) (st : collector) :
  append cfg = true ->
  init cfg disk = Ok st ->
  let rows := existing_rows (connect (in_memory cfg) (file_name cfg) disk) in
  rows_of st = rows
  /\ inc_id st = Z.of_nat (length rows) + 1
  /\ rehydrate cfg rows ∅ = Ok (hash_keys st).
Proof.
  intros Happ. unfold init. intros Hb.
  apply result_bind_Ok in Hb as (c & Hc & Hst).
  apply setup_schema_table in Hc. rewrite Happ in Hc.
  unfold prepare_state, select_all, select_count in Hst. rewrite Happ, Hc in Hst.
  simpl in Hst.
  destruct (rehydrate cfg _ ∅) as [index |] eqn:Hre; [| discriminate].
  simpl in Hst. injection Hst as <-. simpl.
  unfold rows_of. simpl. rewrite Hc. repeat split.
Qed.

(** However it was made, a collector starts with its counter one past the
    number of rows. *)
Lemma init_counter (disk : gmap string database) (st : collector) :
  init cfg disk = Ok st -> inc_id st = Z.of_nat (length (rows_of st)) + 1.
Proof.
  intros Hinit. destruct (append cfg) eqn:Happ.
  - destruct (init_append _ _ Happ Hinit) as (Hrows & Hinc & _).
    rewrite Hrows. exact Hinc.
  - destruct (init_truncate _ _ Happ Hinit) as (-> & _ & ->). reflexivity.
Qed.


Lemma init_append_empty_keys (disk : gmap string database) (c : connection) :
  append cfg = true ->
  unique_keys cfg = [] ->
  setup_schema cfg (connect (in_memory cfg) (file_name cfg) disk) = Ok c ->
  init cfg disk =
    match table (working c) with
    | Some (_ :: _) => Raise RuntimeError
    | _ => Ok {| sqlite := c; hash_keys := ∅; inc_id := 1 |}
    end.
Proof.
  intros Happ Hkeys Hc. unfold init. rewrite Hc. simpl.
  pose proof (setup_schema_table _ _ Hc) as Ht. rewrite Happ in Ht.
  unfold prepare_state, select_all, select_count. rewrite Happ, Ht. simpl.
  destruct (existing_rows _) as [| rec rows].
  - reflexivity.
  - simpl. unfold hash_unique_key. rewrite Hkeys. reflexivity.
Qed.

(** C10.  With no unique keys, constructing a collector in append mode over a
    backing table that has a row raises: [RuntimeError] from the hashing of
    the first row, unless a schema statement failed before.  With no unique
    keys, construction goes through (once the schema statements do) in
    truncate mode, and in append mode when there is no row to read back. *)
Theorem C10_append_without_unique_keys :
  (forall (disk : gmap string database) (db : database)
          (rec : list pyval) (rows : list (list pyval)),
      unique_keys cfg = [] ->
      append cfg = true ->
      in_memory cfg = false ->
      disk !! file_name cfg = Some db ->
      table db = Some (rec :: rows) ->
      exists e, init cfg disk = Raise e
                /\ (forall c, setup_schema cfg (connect false (file_name cfg) disk) = Ok c ->
                              e = RuntimeError))
  /\
  (forall (disk : gmap string database) (c : connection),
      unique_keys cfg = [] ->
      append cfg = false
      \/ existing_rows (connect (in_memory cfg) (file_name cfg) disk) = [] ->
      setup_schema cfg (connect (in_memory cfg) (file_name cfg) disk) = Ok c ->
      exists st, init cfg disk = Ok st /\ hash_keys st = ∅ /\ inc_id st = 1).
Proof.
  split.
  - intros disk db rec rows Hkeys Happ Hmem Hfile Htab.
    destruct (setup_schema cfg (connect (in_memory cfg) (file_name cfg) disk))
      as [c | e] eqn:Hc.
    + exists RuntimeError. split; [| reflexivity].
      rewrite (init_append_empty_keys _ _ Happ Hkeys Hc).
      rewrite (setup_schema_table _ _ Hc), Happ, Hmem.
      unfold existing_rows, rows_in, connect. rewrite Hfile. simpl. rewrite Htab.
      reflexivity.
    + exists e. split.
      * unfold init. rewrite Hc. reflexivity.
      * rewrite Hmem in Hc. intros c Hc'. rewrite Hc' in Hc. discriminate.
  - intros disk c Hkeys Hcase Hc.
    destruct (append cfg) eqn:Happ.
    + destruct Hcase as [Hcase | Hcase]; [discriminate |].
      rewrite (init_append_empty_keys _ _ Happ Hkeys Hc).
      rewrite (setup_schema_table _ _ Hc), Happ.
      rewrite Hcase.
      eexists. repeat split.
    + unfold init. rewrite Hc. simpl. unfold prepare_state. rewrite Happ. simpl.
      eexists. repeat split.
Qed.

(** ** Comparing key tuples *)

Lemma py_getitem_nat {A : Type} (l : list A) (n : nat) :
  py_getitem l (Z.of_nat n) =
    match l !! n with
    | Some x => Ok x
    | None => Raise IndexError
    end.
Proof.
  unfold py_getitem.
  destruct (Z.ltb_spec (Z.of_nat n) 0) as [? | _]; [lia |].
  rewrite Nat2Z.id.
  destruct (Z.leb_spec 0 (Z.of_nat n)) as [_ | ?]; [| lia].
  destruct (Z.ltb_spec (Z.of_nat n) (Z.of_nat (length l))) as [? | Hge]; simpl.
  - reflexivity.
  - rewrite (lookup_ge_None_2 l n) by lia. reflexivity.
Qed.

(** Tuples of the same length compare without an [IndexError]. *)
Lemma tuple_eq_from_total (x pre y : list pyval) :
  (length x <= length y)%nat ->
  exists b, tuple_eq_from (Z.of_nat (length pre)) x (pre ++ y) = Ok b.
Proof.
  revert pre y. induction x as [| xi x IH]; intros pre y Hlen; simpl.
  - exists true. reflexivity.
  - destruct y as [| yi y]; simpl in Hlen; [lia |].
    rewrite py_getitem_nat, lookup_app_r, Nat.sub_diag by lia. simpl.
    destruct (py_ne xi yi).
    + exists false. reflexivity.
    + replace (Z.of_nat (length pre) + 1) with (Z.of_nat (length (pre ++ [yi])))
        by (rewrite length_app; simpl; lia).
      replace (pre ++ yi :: y)%list with ((pre ++ [yi]) ++ y)%list
        by (rewrite <- app_assoc; reflexivity).
      apply IH. lia.
Qed.

(** A tuple whose items all equal themselves equals itself. *)
Lemma tuple_eq_from_self (x pre : list pyval) :
  Forall (fun v => py_eq v v = true) x ->
  tuple_eq_from (Z.of_nat (length pre)) x (pre ++ x) = Ok true.
Proof.
  revert pre. induction x as [| xi x IH]; intros pre Hx; simpl.
  - reflexivity.
  - inversion Hx as [| ? ? Hxi Hx']; subst.
    rewrite py_getitem_nat, lookup_app_r, Nat.sub_diag by lia. simpl.
    unfold py_ne. rewrite Hxi. simpl.
    replace (Z.of_nat (length pre) + 1) with (Z.of_nat (length (pre ++ [xi])))
      by (rewrite length_app; simpl; lia).
    replace (pre ++ xi :: x)%list with ((pre ++ [xi]) ++ x)%list
      by (rewrite <- app_assoc; reflexivity).
    apply IH, Hx'.
Qed.

Lemma tuple_eq_self (x : list pyval) :
  Forall (fun v => py_eq v v = true) x -> tuple_eq x x = Ok true.
Proof. intros Hx. exact (tuple_eq_from_self x [] Hx). Qed.



Lemma record_keys_lookup (h h' : string) (keys : list pyval)
  (index : gmap string (list (list pyval))) :
  record_keys h keys index !! h' =
    if decide (h = h')
    then Some (match index !! h with Some bucket => bucket | None => [] end ++ [keys])%list
    else index !! h'.
Proof.
  unfold record_keys. destruct (index !! h) as [bucket |] eqn:Hb;
    rewrite lookup_insert; destruct (decide (h = h')); reflexivity.
Qed.

(** ** One record, case by case *)

Lemma mapM_result_Forall2 {A B} (f : A -> result B) (l : list A) (ys : list B) :
  mapM f l = Ok ys -> Forall2 (fun x y => f x = Ok y) l ys.
Proof.
  revert ys. induction l as [| a l IH]; intros ys.
  - intros [= <-]. constructor.
  - rewrite mapM_result_cons. intros Hb.
    apply result_bind_Ok in Hb as (y & Hy & Hb).
    apply result_bind_Ok in Hb as (k & Hk & [= <-]).
    constructor; [exact Hy | apply IH, Hk].
Qed.

Lemma mapM_result_elem {A B} (f : A -> result B) (l : list A) (ys : list B) (x : A) :
  mapM f l = Ok ys -> x ∈ l -> exists y, f x = Ok y /\ y ∈ ys.
Proof.
  intros Hm Hx. apply mapM_result_Forall2 in Hm.
  induction Hm as [| a y l ys Hay _ IH].
  - inversion Hx.
  - apply elem_of_cons in Hx as [-> | Hx].
    + exists y. split; [exact Hay | left].
    + destruct (IH Hx) as (y' & Hy' & Hin). exists y'. split; [exact Hy' | right; exact Hin].
Qed.

Lemma mapM_result_elem_r {A B} (f : A -> result B) (l : list A) (ys : list B) (y : B) :
  mapM f l = Ok ys -> y ∈ ys -> exists x, x ∈ l /\ f x = Ok y.
Proof.
  intros Hm Hy. apply mapM_result_Forall2 in Hm.
  induction Hm as [| a y' l ys Hay _ IH].
  - inversion Hy.
  - apply elem_of_cons in Hy as [-> | Hy].
    + exists a. split; [left | exact Hay].
    + destruct (IH Hy) as (x & Hx & Hfx). exists x. split; [right; exact Hx | exact Hfx].
Qed.

Lemma py_getitem_elem {A : Type} (l : list A) (i : Z) (x : A) :
  py_getitem l i = Ok x -> x ∈ l.
Proof.
  unfold py_getitem. destruct (_ && _); [| discriminate].
  destruct (l !! _) as [y |] eqn:Hl; [| discriminate].
  intros [= <-]. eapply list_elem_of_lookup_2, Hl.
Qed.

(** Every unique-key value of a record is one of its column values. *)
Lemma keys_among_values (r : row) (keys values : list pyval) (v : pyval) :
  uniq_keys_of cfg r = Ok keys ->
  values_of cfg r = Ok values ->
  v ∈ keys -> v ∈ values.
Proof.
  intros Hk Hv Hin.
  destruct (mapM_result_elem_r _ _ _ _ Hk Hin) as (k & _ & Hkv).
  unfold key_value in Hkv. apply result_bind_Ok in Hkv as (f & Hf & Hrow).
  apply py_getitem_elem in Hf.
  destruct (mapM_result_elem _ _ _ _ Hv Hf) as (v' & Hrow' & Hin').
  simpl in Hrow'. rewrite Hrow in Hrow'. injection Hrow' as <-. exact Hin'.
Qed.

Lemma SFeqb_refl (f : spec_float) : f <> S754_nan -> SFeqb f f = true.
Proof.
  intros Hf. destruct f as [s | s | | s m e]; try (destruct s; reflexivity).
  - contradiction.
  - unfold SFeqb, SFcompare.
    destruct s; rewrite Z.compare_refl, Pos.compare_cont_refl; reflexivity.
Qed.

(** A value the storage takes equals itself, unless it is NaN. *)
Lemma bindable_self_equal (v w : pyval) :
  bind_param v = Ok w -> v <> VFloat nan -> py_eq v v = true.
Proof.
  destruct v as [| b | z | f | s | l | d]; simpl; intros Hb Hn; try discriminate.
  - reflexivity.
  - destruct b; reflexivity.
  - apply Z.eqb_refl.
  - apply SFeqb_refl. intros ->. apply Hn. reflexivity.
  - apply String.eqb_refl.
Qed.

Lemma stored_keys_self_equal (r : row) (keys values rec : list pyval) (id : Z) :
  uniq_keys_of cfg r = Ok keys ->
  values_of cfg r = Ok values ->
  stored_row (map type (fields cfg)) values id = Ok rec ->
  Forall (fun v => v <> VFloat nan) keys ->
  Forall (fun v => py_eq v v = true) keys.
Proof.
  intros Hk Hv Hrec Hn. rewrite Forall_forall in Hn |- *. intros v Hin.
  unfold stored_row in Hrec. apply result_bind_Ok in Hrec as (bound & Hb & _).
  pose proof (keys_among_values _ _ _ _ Hk Hv Hin) as Hval.
  destruct (mapM_result_elem _ _ _ _ Hb Hval) as (w & Hw & _).
  eapply bindable_self_equal; [exact Hw | apply Hn, Hin].
Qed.


Lemma rows_of_same (st st' : collector) : same_content st st' -> rows_of st' = rows_of st.
Proof. intros (Hw & _ & _). unfold rows_of. rewrite Hw. reflexivity. Qed.

(** The record is stored: the insert goes through. *)
Lemma insert_stores (r : row) (st : collector) (h : string)
  (keys values : list pyval) (c : connection) :
  hash_unique_key cfg (inl r) = Ok h ->
  uniq_keys_of cfg r = Ok keys ->
  values_of cfg r = Ok values ->
  execute_insert (map type (fields cfg)) (inc_id st) values (sqlite st) = Ok c ->
  wanted cfg r h st ->
  working (sqlite (fst (insert cfg r st))) = working c
  /\ hash_keys (fst (insert cfg r st)) = record_keys h keys (hash_keys st)
  /\ inc_id (fst (insert cfg r st)) = inc_id st + 1.
Proof.
  intros Hh Hk Hv Hc Hw. rewrite insert_eq, Hh.
  assert (Hyes : (if negb (skip_duplicate cfg) then Ok true
                  else negb <$> snd (has_duplicate cfg r h st)) = Ok true).
  { destruct Hw as [-> | ->]; [reflexivity |]. destruct (negb _); reflexivity. }
  rewrite Hyes, store_eq, Hv, Hc, Hk.
  destruct (commit_on_boundary cfg _) as [st' res] eqn:Hfin.
  apply commit_on_boundary_same in Hfin as (H1 & H2 & H3). simpl.
  rewrite H1, H2, H3. repeat split.
Qed.

(** The storage refuses the row: nothing changes and the error travels on. *)
Lemma insert_refused (r : row) (st : collector) (h : string)
  (values : list pyval) (e : exn) :
  hash_unique_key cfg (inl r) = Ok h ->
  values_of cfg r = Ok values ->
  execute_insert (map type (fields cfg)) (inc_id st) values (sqlite st) = Raise e ->
  wanted cfg r h st ->
  insert cfg r st = (st, Raise e).
Proof.
  intros Hh Hv Hc Hw. rewrite insert_eq, Hh.
  assert (Hyes : (if negb (skip_duplicate cfg) then Ok true
                  else negb <$> snd (has_duplicate cfg r h st)) = Ok true).
  { destruct Hw as [-> | ->]; [reflexivity |]. destruct (negb _); reflexivity. }
  rewrite Hyes, store_eq, Hv, Hc. reflexivity.
Qed.

(** The duplicate check does not come back with "no": nothing is stored. *)
Lemma insert_skips (r : row) (st : collector) (h : string) :
  hash_unique_key cfg (inl r) = Ok h ->
  skip_duplicate cfg = true ->
  snd (has_duplicate cfg r h st) <> Ok false ->
  same_content st (fst (insert cfg r st)).
Proof.
  intros Hh Hs Hd. rewrite insert_eq, Hh, Hs. simpl negb. cbv iota.
  destruct (snd (has_duplicate cfg r h st)) as [[|] | e]; simpl.
  - destruct (commit_on_boundary cfg st) as [st' res] eqn:Hfin.
    eapply commit_on_boundary_same, Hfin.
  - contradiction.
  - repeat split.
Qed.

(** Whatever [ingest] does is one of two things. *)
Lemma ingest_cases (record : pyval) (st : collector) :
  same_content st (fst (ingest cfg record st))
  \/ exists r h keys values c,
       parse_fields (fields cfg) record ∅ = Ok r
       /\ hash_unique_key cfg (inl r) = Ok h
       /\ uniq_keys_of cfg r = Ok keys
       /\ values_of cfg r = Ok values
       /\ execute_insert (map type (fields cfg)) (inc_id st) values (sqlite st) = Ok c
       /\ wanted cfg r h st.
Proof.
  unfold ingest, and_then, lift.
  destruct (parse_fields (fields cfg) record ∅) as [r | e]; [| left; repeat split].
  destruct (hash_unique_key cfg (inl r)) as [h | e] eqn:Hh.
  2:{ left. rewrite insert_eq, Hh. repeat split. }
  destruct (hash_dict_Ok _ _ Hh) as (_ & keys & Hk & _).
  destruct (skip_duplicate cfg) eqn:Hs.
  - destruct (snd (has_duplicate cfg r h st)) as [[|] | e] eqn:Hd.
    + left. apply (insert_skips r st h); [exact Hh | exact Hs |]. rewrite Hd. discriminate.
    + destruct (values_of cfg r) as [values | e] eqn:Hv.
      * destruct (execute_insert (map type (fields cfg)) (inc_id st) values (sqlite st))
          as [c | e] eqn:Hc.
        -- right. exists r, h, keys, values, c. repeat split; try assumption.
           right. exact Hd.
        -- left. rewrite (insert_refused r st h values e); try assumption.
           ++ repeat split.
           ++ right. exact Hd.
      * left. rewrite insert_eq, Hh, Hs, Hd. simpl. rewrite store_eq, Hv. repeat split.
    + left. apply (insert_skips r st h); [exact Hh | exact Hs |]. rewrite Hd. discriminate.
  - destruct (values_of cfg r) as [values | e] eqn:Hv.
    + destruct (execute_insert (map type (fields cfg)) (inc_id st) values (sqlite st))
        as [c | e] eqn:Hc.
      * right. exists r, h, keys, values, c. repeat split; try assumption.
        left. exact Hs.
      * left. rewrite (insert_refused r st h values e); try assumption.
        -- repeat split.
        -- left. exact Hs.
    + left. rewrite insert_eq, Hh, Hs. simpl. rewrite store_eq, Hv. repeat split.
Qed.

Lemma ingest_parsed (record : pyval) (r : row) (st : collector) :
  parse_fields (fields cfg) record ∅ = Ok r ->
  ingest cfg record st = insert cfg r st.
Proof. intros Hp. unfold ingest, and_then, lift. rewrite Hp. reflexivity. Qed.

(** [add([record])] leaves what the [try] body leaves. *)
Lemma add_single_final (record : pyval) (st : collector) :
  final (add cfg (VList [record]) st) = fst (ingest cfg record st).
Proof.
  unfold add. simpl. destruct (ingest cfg record st) as [st' [[] | e]]; simpl.
  - reflexivity.
  - destruct (is_Exception e); [| reflexivity].
    destruct (error_handler cfg) as [handler |]; [| reflexivity].
    destruct (handler e record); reflexivity.
Qed.

(** ** When hashing succeeds *)




Lemma mapM_result_fmap {A B C} (f : A -> result B) (g : B -> C) (l : list A) (ys : list B) :
  mapM f l = Ok ys -> mapM (fun a => g <$> f a) l = Ok (map g ys).
Proof.
  revert ys. induction l as [| a l IH]; intros ys.
  - intros [= <-]. reflexivity.
  - rewrite !mapM_result_cons. intros Hb.
    apply result_bind_Ok in Hb as (y & Hy & Hb).
    apply result_bind_Ok in Hb as (k & Hk & [= <-]).
    rewrite Hy. simpl. rewrite (IH _ Hk). reflexivity.
Qed.



(** C2, as the code has it.  When the fields of a record parse and the
    storage raises on its insert, the exception is an [Exception] and is
    caught inside [add]: the collector is as it was, the exception and the
    record go to the error handler if there is one and are dropped
    otherwise, and the loop goes on with the next record.  The exception
    leaves [add] only if the handler raises. *)
Theorem C2_storage_failure_is_caught
  (st : collector) (record : pyval) (rest : list pyval) (calls : list (exn * pyval))
  (r : row) (h : string) (values : list pyval) (e : exn) :
  parse_fields (fields cfg) record ∅ = Ok r ->
  hash_unique_key cfg (inl r) = Ok h ->
  wanted cfg r h st ->
  values_of cfg r = Ok values ->
  execute_insert (map type (fields cfg)) (inc_id st) values (sqlite st) = Raise e ->
  is_Exception e = true
  /\ add_loop cfg (record :: rest) st calls =
       match error_handler cfg with
       | None => add_loop cfg rest st calls
       | Some handler =>
           match handler e record with
           | None => add_loop cfg rest st (calls ++ [(e, record)])
           | Some e' =>
               {| final := st; handled := (calls ++ [(e, record)])%list; raised := Some e' |}
           end
       end.
Proof.
  intros Hp Hh Hw Hv Hc.
  assert (He : is_Exception e = true).
  { destruct (execute_insert_Raise _ _ _ _ _ Hc) as [-> | ->]; reflexivity. }
  split; [exact He |].
  simpl. rewrite (ingest_parsed _ _ _ Hp), (insert_refused r st h values e Hh Hv Hc Hw), He.
  reflexivity.
Qed.


(** ** Reopening in append mode *)

Lemma mapM_result_length {A B} (f : A -> result B) (l : list A) (ys : list B) :
  mapM f l = Ok ys -> length ys = length l.
Proof.
  intros Hm. apply mapM_result_Forall2 in Hm.
  symmetry. eapply Forall2_length, Hm.
Qed.

Lemma hash_of_keys (r : row) (keys : list pyval) :
  unique_keys cfg <> [] ->
  uniq_keys_of cfg r = Ok keys ->
  hash_unique_key cfg (inl r) = Ok (md5_hexdigest (String.concat "" (map py_str keys))).
Proof.
  intros Hne Hk. unfold hash_unique_key.
  destruct (unique_keys cfg) as [| k ks] eqn:Hu; [contradiction |].
  change (length (k :: ks) =? 0)%nat with false. cbv iota.
  unfold uniq_keys_of in Hk. rewrite Hu in Hk.
  rewrite (mapM_result_fmap _ _ _ _ Hk). reflexivity.
Qed.

Lemma hash_of_columns (rec keys : list pyval) :
  unique_keys cfg <> [] ->
  mapM (py_getitem rec) (unique_keys cfg) = Ok keys ->
  hash_unique_key cfg (inr rec) = Ok (md5_hexdigest (String.concat "" (map py_str keys))).
Proof.
  intros Hne Hk. unfold hash_unique_key.
  destruct (unique_keys cfg) as [| k ks] eqn:Hu; [contradiction |].
  change (length (k :: ks) =? 0)%nat with false. cbv iota.
  rewrite (mapM_result_fmap _ _ _ _ Hk). reflexivity.
Qed.

Lemma record_keys_length (n : nat) (h : string) (keys : list pyval)
  (index : gmap string (list (list pyval))) :
  length keys = n ->
  buckets_of_length n index ->
  buckets_of_length n (record_keys h keys index).
Proof.
  intros Hlen Hwf h' bucket. rewrite record_keys_lookup.
  destruct (decide (h = h')) as [<- | _]; [| apply Hwf].
  intros [= <-]. apply Forall_app. split.
  - destruct (index !! h) as [b |] eqn:Hb; [eapply Hwf, Hb | constructor].
  - constructor; [exact Hlen | constructor].
Qed.

Lemma record_keys_grows (h h' : string) (keys x : list pyval)
  (index : gmap string (list (list pyval))) (bucket : list (list pyval)) :
  index !! h' = Some bucket -> x ∈ bucket ->
  exists bucket', record_keys h keys index !! h' = Some bucket' /\ x ∈ bucket'.
Proof.
  intros Hb Hx. rewrite record_keys_lookup.
  destruct (decide (h = h')) as [-> | _].
  - rewrite Hb. eexists. split; [reflexivity |]. apply elem_of_app. left. exact Hx.
  - exists bucket. split; assumption.
Qed.


Lemma del_file (st : collector) (disk : gmap string database) :
  in_memory cfg = false ->
  working (connect false (file_name cfg) (del cfg st disk)) = working (sqlite st).
Proof.
  intros Hm. unfold del, close, connect. rewrite Hm, lookup_insert_eq. reflexivity.
Qed.



End Facts.

End CollectorFacts.

(* ===================================================================== *)
(** * The code on concrete inputs *)
(* ===================================================================== *)

Module Examples.
Import PyValue Fields Storage Collector Claims Demo FieldsFacts CollectorFacts.

#[local] Existing Instance demo_builtins.
#[local] Existing Instance demo_engine.

(** ** Fields *)

Lemma C9_witness :
  raw_name nested_field = "a.b"
  /\ Field_default_value_parser nested_field (VDict [("a", VDict [("x", VInt 1)])]) = Ok VNone.
Proof.
  split; [reflexivity |].
  apply (proj1 C9_unknown_path_yields_none nested_field). reflexivity.
Defined.

Lemma C8_witness :
  f_class (field_of FloatField "x") = FloatField
  /\ arg_value_parser (field_of FloatField "x") = None
  /\ Field_default_value_parser (field_of FloatField "x") (VDict [("x", VStr "3")])
     = Ok (VStr "3")
  /\ parse (field_of FloatField "x") (VDict [("x", VStr "3")]) = Ok (VFloat (float_of_Z 3)).
Proof.
  split; [reflexivity |]. split; [reflexivity |]. split; [reflexivity |].
  apply (proj1 C8_real_field_typing (field_of FloatField "x")); reflexivity.
Defined.

(** ** C3: the batch boundary *)

(** C3, in the code.  With [batch_size=3], seven records that are all stored: the two commits
    inside [add] come when 2 and when 5 rows are stored, the counter being
    then 3 and 6; five rows are durable when [add] returns, and all seven
    after [__del__]. *)
Theorem C3_batch_boundary_in_code :
  let cfg := int_collection false false true 3 in
  let st0 := constructed (init cfg ∅) in
  let st := final (add cfg seven_records st0) in
  init cfg ∅ = Ok st0
  /\ length (rows_of st) = 7%nat
  /\ commit_log (sqlite st) = (commit_log (sqlite st0) ++ [2%nat; 5%nat])%list
  /\ row_count (durable (sqlite st)) = 5%nat
  /\ row_count (durable (commit (sqlite st))) = 7%nat.
Proof. vm_compute. repeat split. Qed.

(** ** C4: one record that is not in a list *)

(** C4, in the code.  [add] of a dict is [add] of the list of its keys.  On [{"a": 5}] the one
    "record" is the string ["a"], no path can be followed in it, and a row of
    nulls is stored; [add([{"a": 5}])] stores 5. *)
Theorem C4_single_record_in_code :
  (forall (B : Builtins) (E : Engine) (cfg : config) (d : list (string * pyval))
          (st : collector),
      @add B E cfg (VDict d) st
      = @add B E cfg (VList (map (fun kv => VStr (fst kv)) d)) st)
  /\
  (let cfg := int_collection false false true 4096 in
   let st0 := constructed (init cfg ∅) in
   init cfg ∅ = Ok st0
   /\ rows_of (final (add cfg (rec_a 5) st0)) = [[VNone; VInt 1]]
   /\ rows_of (final (add cfg (VList [rec_a 5]) st0)) = [[VInt 5; VInt 1]]).
Proof.
  split.
  - intros B E cfg d st. reflexivity.
  - vm_compute. repeat split.
Qed.

(** ** C1: no unique keys *)

(** With the default [unique_keys=None] and duplicate skipping disabled, a
    record that parses, and whose row the storage would take, is not stored:
    [__insert] hashes first, hashing raises [RuntimeError], and [add] hands
    it to the error handler. *)
Lemma C1_keyless_stores_nothing :
  let cfg := keyless_collection false true in
  let st0 := constructed (init cfg ∅) in
  let out := add cfg (VList [rec_a 10]) st0 in
  init cfg ∅ = Ok st0
  /\ hash_unique_key cfg (inl {["a" := VInt 10]}) = Raise RuntimeError
  /\ rows_of (final out) = []
  /\ handled out = [(RuntimeError, rec_a 10)]
  /\ raised out = None.
Proof. vm_compute. repeat split. Qed.



(** ** C2: a row the storage refuses *)

(** A value of an untyped field is a list: binding it fails.  [add] returns
    normally, nothing is stored, the handler got the error. *)
Lemma C2_refused_row_is_handled :
  let cfg := blob_collection in
  let st0 := constructed (init cfg ∅) in
  let out := add cfg (VList [VDict [("a", VList [VInt 1])]]) st0 in
  init cfg ∅ = Ok st0
  /\ execute_insert (map type (fields cfg)) (inc_id st0) [VList [VInt 1]] (sqlite st0)
     = Raise SqliteError
  /\ raised out = None
  /\ handled out = [(SqliteError, VDict [("a", VList [VInt 1])])]
  /\ rows_of (final out) = [].
Proof. vm_compute. repeat split. Qed.

Lemma C2_counterexample : ~ storage_failure_propagates blob_collection.
Proof.
  intros Hclaim.
  specialize (Hclaim (constructed (init blob_collection ∅))
                (VDict [("a", VList [VInt 1])]) {["a" := VList [VInt 1]]}
                "<list>" [VList [VInt 1]] SqliteError).
  assert (Hout : raised (add blob_collection (VList [VDict [("a", VList [VInt 1])]])
                           (constructed (init blob_collection ∅))) = None)
    by (vm_compute; reflexivity).
  rewrite Hout in Hclaim.
  discriminate Hclaim.
  - vm_compute. reflexivity.
  - vm_compute. reflexivity.
  - left. reflexivity.
  - vm_compute. reflexivity.
  - vm_compute. reflexivity.
Qed.

Lemma C2_witness :
  let cfg := blob_collection in
  let st0 := constructed (init cfg ∅) in
  let record := VDict [("a", VList [VInt 1])] in
  (parse_fields (fields cfg) record ∅ = Ok {["a" := VList [VInt 1]]}
   /\ hash_unique_key cfg (inl {["a" := VList [VInt 1]]}) = Ok "<list>"
   /\ wanted cfg {["a" := VList [VInt 1]]} "<list>" st0
   /\ values_of cfg {["a" := VList [VInt 1]]} = Ok [VList [VInt 1]]
   /\ execute_insert (map type (fields cfg)) (inc_id st0) [VList [VInt 1]] (sqlite st0)
      = Raise SqliteError)
  /\ is_Exception SqliteError = true
  /\ add_loop cfg [record; rec_a 2] st0 []
     = add_loop cfg [rec_a 2] st0 [(SqliteError, record)].
Proof.
  intros cfg st0 record.
  assert (H1 : parse_fields (fields cfg) record ∅ = Ok {["a" := VList [VInt 1]]})
    by (vm_compute; reflexivity).
  assert (H2 : hash_unique_key cfg (inl {["a" := VList [VInt 1]]}) = Ok "<list>")
    by (vm_compute; reflexivity).
  assert (H3 : wanted cfg {["a" := VList [VInt 1]]} "<list>" st0) by (left; reflexivity).
  assert (H4 : values_of cfg {["a" := VList [VInt 1]]} = Ok [VList [VInt 1]])
    by (vm_compute; reflexivity).
  assert (H5 : execute_insert (map type (fields cfg)) (inc_id st0) [VList [VInt 1]]
                 (sqlite st0) = Raise SqliteError) by (vm_compute; reflexivity).
  split; [repeat split; assumption |].
  exact (C2_storage_failure_is_caught cfg st0 record [rec_a 2] [] _ _ _ _ H1 H2 H3 H4 H5).
Defined.

(** ** C5: identifiers *)


(** ** C6: the same record twice *)

(** A [Float] unique key whose path is missing parses to NaN.  The first
    copy is stored (NaN is kept as NULL); the second copy finds the bucket of
    the first, but [nan != nan], so it is stored again. *)
Lemma C6_nan_key_stored_twice :
  let cfg := float_collection false in
  let st0 := constructed (init cfg ∅) in
  let st1 := final (add cfg (VList [rec_empty]) st0) in
  let st2 := final (add cfg (VList [rec_empty]) st1) in
  init cfg ∅ = Ok st0
  /\ skip_duplicate cfg = true
  /\ parse_fields (fields cfg) rec_empty ∅ = Ok {["x" := VFloat nan]}
  /\ rows_of st1 = [[VNone; VInt 1]]
  /\ hash_keys st1 = {["nan" := [[VFloat nan]]]}
  /\ py_ne (VFloat nan) (VFloat nan) = true
  /\ rows_of st2 = [[VNone; VInt 1]; [VNone; VInt 2]].
Proof. vm_compute. repeat split. Qed.



(** ** C7: closing and reopening *)

(** A: a record without the [Float] unique key; B, C: with it.  The three
    are stored, the collection is closed and reopened in append mode.  A's
    key was stored as NULL and reads back as [None]; A parses to NaN again,
    which equals nothing: a fourth row is stored, under identifier 4. *)
Lemma C7_nan_key_after_reopening :
  let st0 := constructed (init (float_collection false) ∅) in
  let st1 := final (add (float_collection false) (VList [rec_empty; rec_x 1; rec_x 2]) st0) in
  let disk := del (float_collection false) st1 ∅ in
  let st2 := constructed (init (float_collection true) disk) in
  let st3 := final (add (float_collection true) (VList [rec_empty]) st2) in
  init (float_collection false) ∅ = Ok st0
  /\ rows_of st1 = [[VNone; VInt 1]; [VFloat (float_of_Z 1); VInt 2];
                    [VFloat (float_of_Z 2); VInt 3]]
  /\ init (float_collection true) disk = Ok st2
  /\ rows_of st2 = rows_of st1
  /\ inc_id st2 = 4
  /\ rows_of st3 = (rows_of st1 ++ [[VNone; VInt 4]])%list.
Proof. vm_compute. repeat split. Qed.



(** ** C10: append mode without unique keys *)

(** A file that holds one row. *)
Lemma C10_witness :
  let cfg := keyless_collection true false in
  let db := {| table := Some [[VInt 10; VInt 1]]; indexes := ∅ |} in
  let disk : gmap string database := {[file_name cfg := db]} in
  (unique_keys cfg = [] /\ append cfg = true /\ in_memory cfg = false
   /\ disk !! file_name cfg = Some db
   /\ table db = Some [[VInt 10; VInt 1]])
  /\ exists e, init cfg disk = Raise e
               /\ (forall c, setup_schema cfg (connect false (file_name cfg) disk) = Ok c ->
                             e = RuntimeError).
Proof.
  intros cfg db disk.
  assert (H1 : unique_keys cfg = []) by reflexivity.
  assert (H2 : append cfg = true) by reflexivity.
  assert (H3 : in_memory cfg = false) by reflexivity.
  assert (H4 : disk !! file_name cfg = Some db) by (vm_compute; reflexivity).
  assert (H5 : table db = Some [[VInt 10; VInt 1]]) by reflexivity.
  split; [repeat split; assumption |].
  exact (proj1 (C10_append_without_unique_keys cfg) disk db _ _ H1 H2 H3 H4 H5).
Defined.

(** The same configuration over no file at all, and in truncate mode over
    the file above, is constructed. *)
Lemma C10_keyless_construction_succeeds :
  init (keyless_collection true false) ∅
    = Ok (constructed (init (keyless_collection true false) ∅))
  /\ init (keyless_collection false false)
       {["t.sqlite" := {| table := Some [[VInt 10; VInt 1]]; indexes := ∅ |}]}
     = Ok (constructed
             (init (keyless_collection false false)
                {["t.sqlite" := {| table := Some [[VInt 10; VInt 1]]; indexes := ∅ |}]}))
  /\ init (keyless_collection true false)
       {["t.sqlite" := {| table := Some [[VInt 10; VInt 1]]; indexes := ∅ |}]}
     = Raise RuntimeError.
Proof. vm_compute. repeat split. Qed.

End Examples.

(* ===================================================================== *)
(** * Further properties of [fields.py] *)
(* ===================================================================== *)

Module MoreFieldsFacts.
Import PyValue Fields FieldsFacts.

(** The loop ends on [v] exactly when the path leads to [v]. *)
Lemma walk_Some_iff (keys : list string) (record v : pyval) :
  walk keys record = Some v <-> path_to record keys v.
Proof.
  split.
  - revert record. induction keys as [| key rest IH]; intros record; simpl.
    + intros [= <-]. constructor.
    + destruct record as [| | | | | | d]; try discriminate.
      destruct (dict_get d key) as [w |] eqn:Hget; [| discriminate].
      intros Hw. econstructor; [exact Hget | apply IH, Hw].
  - intros Hp. rewrite <- (app_nil_r keys), (walk_path _ _ _ _ Hp). reflexivity.
Qed.

(** A path leads to at most one value. *)
Lemma path_to_unique (record : pyval) (keys : list string) (v w : pyval) :
  path_to record keys v -> path_to record keys w -> v = w.
Proof.
  intros Hv Hw. apply walk_Some_iff in Hv, Hw. congruence.
Qed.

(** X1.  When the dotted path leads to a value and the field has neither a
    validator nor a converter, the default extractor of a base [Field]
    returns that very value, whatever it is (a nested dict or list
    included). *)
Theorem path_value_is_extracted (f : Field) (record v : pyval) :
  path_to record (splited_key_names f) v ->
  value_validator f = None ->
  value_converter f = None ->
  Field_default_value_parser f record = Ok v.
Proof.
  intros Hp Hv Hc. apply walk_Some_iff in Hp.
  unfold Field_default_value_parser. rewrite Hp, Hv, Hc. reflexivity.
Qed.

Lemma split_nonempty (sep : ascii) (s : string) : split sep s <> [].
Proof.
  destruct s as [| c rest]; simpl; [discriminate |].
  destruct (Ascii.eqb c sep); [discriminate |].
  destruct (split sep rest); discriminate.
Qed.

Lemma concat_cons_nonempty (sep x : string) (xs : list string) :
  xs <> [] -> String.concat sep (x :: xs) = String.append x (String.append sep (String.concat sep xs)).
Proof. destruct xs; [contradiction | reflexivity]. Qed.

Lemma split_join (sep : ascii) (s : string) :
  String.concat (String sep EmptyString) (split sep s) = s.
Proof.
  induction s as [| c rest IH]; simpl; [reflexivity |].
  destruct (Ascii.eqb_spec c sep) as [-> | Hne].
  - rewrite concat_cons_nonempty by apply split_nonempty.
    simpl. rewrite IH. reflexivity.
  - pose proof (split_nonempty sep rest) as Hn.
    destruct (split sep rest) as [| w ws]; [contradiction |].
    destruct ws as [| w' ws'].
    + simpl in IH |- *. rewrite IH. reflexivity.
    + rewrite concat_cons_nonempty in IH |- * by discriminate.
      simpl. rewrite <- IH. reflexivity.
Qed.

Lemma split_segment (sep : ascii) (s seg : string) :
  seg ∈ split sep s -> split sep seg = [seg].
Proof.
  revert seg. induction s as [| c rest IH]; intros seg; simpl.
  - intros Hin. apply list_elem_of_singleton in Hin as ->. reflexivity.
  - destruct (Ascii.eqb_spec c sep) as [-> | Hne].
    + intros Hin. apply elem_of_cons in Hin as [-> | Hin]; [reflexivity | apply IH, Hin].
    + pose proof (split_nonempty sep rest) as Hn.
      destruct (split sep rest) as [| w ws]; [contradiction |].
      intros Hin. apply elem_of_cons in Hin as [-> | Hin].
      * simpl. destruct (Ascii.eqb_spec c sep) as [? | _]; [contradiction |].
        rewrite (IH w) by left. reflexivity.
      * apply IH. right. exact Hin.
Qed.

(** X2.  The path segments of a field are never an empty list, joined by
    dots they give back [raw_name], and no segment can be split further: none
    contains a dot. *)
Theorem segments_of_raw_name (f : Field) :
  splited_key_names f <> []
  /\ String.concat "." (splited_key_names f) = raw_name f
  /\ forall seg, seg ∈ splited_key_names f -> split "." seg = [seg].
Proof.
  unfold splited_key_names. split; [apply split_nonempty |].
  split; [apply split_join |]. intros seg. apply split_segment.
Qed.

Section Typed.
Context `{Builtins}.

(** X3.  Without a custom parser, what a typed field returns has the type of
    its column: a [String] field returns [None] or a [str], an [Int] field
    [None] or an [int], a [Float] field always a [float] (never [None]). *)
Theorem typed_field_values (f : Field) (record v : pyval) :
  arg_value_parser f = None ->
  parse f record = Ok v ->
  match f_class f with
  | StringField => v = VNone \/ exists s, v = VStr s
  | IntField => v = VNone \/ exists z, v = VInt z
  | FloatField => exists x, v = VFloat x
  | BaseField | DateTimeField => Field_default_value_parser f record = Ok v
  end.
Proof.
  intros Hp. unfold parse. rewrite Hp. unfold default_value_parser.
  destruct (f_class f); try (intros Hv; exact Hv).
  - unfold String_default_value_parser.
    destruct (Field_default_value_parser f record) as [r | e]; simpl; [| discriminate].
    destruct r; intros [= <-]; eauto.
  - unfold Int_default_value_parser.
    destruct (Field_default_value_parser f record) as [r | e]; simpl; [| discriminate].
    destruct r; simpl; try (intros [= <-]; eauto); try discriminate.
    + destruct f0; simpl; try discriminate; intros [= <-]; eauto.
    + destruct (int_of_string s); simpl; [intros [= <-]; eauto | discriminate].
  - unfold Float_default_value_parser.
    destruct (Field_default_value_parser f record) as [r | e]; simpl; [| discriminate].
    destruct r; simpl; try (intros [= <-]; eauto); try discriminate.
    + destruct (float_of_Z z); simpl; try (intros [= <-]; eauto); discriminate.
    + destruct (float_of_string s); simpl; [intros [= <-]; eauto | discriminate].
Qed.

(** X4.  A value that is present but [None] (a JSON null) is treated like a
    missing path: with no validator and no converter a [Float] field parses
    it to NaN and every other field to [None]. *)
Theorem null_is_like_missing (f : Field) (record : pyval) :
  arg_value_parser f = None ->
  value_validator f = None ->
  value_converter f = None ->
  path_to record (splited_key_names f) VNone ->
  parse f record =
    match f_class f with
    | FloatField => Ok (VFloat nan)
    | _ => Ok VNone
    end.
Proof.
  intros Hp Hv Hc Hpath.
  assert (Hbase : Field_default_value_parser f record = Ok VNone).
  { apply walk_Some_iff in Hpath.
    unfold Field_default_value_parser. rewrite Hpath, Hv, Hc. reflexivity. }
  unfold parse. rewrite Hp. unfold default_value_parser, String_default_value_parser,
    Int_default_value_parser, Float_default_value_parser.
  destruct (f_class f); rewrite Hbase; reflexivity.
Qed.

End Typed.

End MoreFieldsFacts.

(* ===================================================================== *)
(** * Further properties of [collector.py] *)
(* ===================================================================== *)

Module MoreCollectorFacts.
Import PyValue Fields Storage Collector Terms FieldsFacts CollectorFacts.

Section Facts.
Context `{Builtins} `{Engine}.
Variable cfg : config.

(** ** [__tuple_eq] and [__has_duplicate] *)

Lemma tuple_eq_from_prefix (x pre y : list pyval) :
  (length x <= length y)%nat ->
  tuple_eq_from (Z.of_nat (length pre)) x (pre ++ y) = Ok true
  <-> items_equal x (take (length x) y).
Proof.
  revert pre y. induction x as [| xi x IH]; intros pre y Hlen; simpl.
  - split; [intros _; constructor | reflexivity].
  - destruct y as [| yi y]; simpl in Hlen; [lia |].
    rewrite py_getitem_nat, lookup_app_r, Nat.sub_diag by lia. simpl.
    unfold py_ne. destruct (py_eq xi yi) eqn:Hxy; simpl.
    + replace (Z.of_nat (length pre) + 1) with (Z.of_nat (length (pre ++ [yi])))
        by (rewrite length_app; simpl; lia).
      replace (pre ++ yi :: y)%list with ((pre ++ [yi]) ++ y)%list
        by (rewrite <- app_assoc; reflexivity).
      rewrite IH by lia. split.
      * intros Hrest. constructor; assumption.
      * intros Hall. inversion Hall; subst. assumption.
    + split; [discriminate |]. intros Hall. inversion Hall; subst. congruence.
Qed.

Lemma tuple_eq_from_short (x pre y : list pyval) :
  (length y < length x)%nat ->
  items_equal (take (length y) x) y ->
  tuple_eq_from (Z.of_nat (length pre)) x (pre ++ y) = Raise IndexError.
Proof.
  revert pre x. induction y as [| yi y IH]; intros pre x Hlen Heq.
  - destruct x as [| xi x]; simpl in Hlen; [lia |]. simpl.
    rewrite py_getitem_nat, app_nil_r, lookup_ge_None_2 by lia. reflexivity.
  - destruct x as [| xi x]; simpl in Hlen; [lia |]. simpl in Heq.
    inversion Heq as [| ? ? ? ? Hxy Hrest]; subst. simpl.
    rewrite py_getitem_nat, lookup_app_r, Nat.sub_diag by lia. simpl.
    unfold py_ne. rewrite Hxy. simpl.
    replace (Z.of_nat (length pre) + 1) with (Z.of_nat (length (pre ++ [yi])))
      by (rewrite length_app; simpl; lia).
    replace (pre ++ yi :: y)%list with ((pre ++ [yi]) ++ y)%list
      by (rewrite <- app_assoc; reflexivity).
    apply IH; [lia | exact Hrest].
Qed.

(** X5.  [__tuple_eq(x, y)] compares the items of [x] with the items of [y]
    at the same positions and nothing more.  When [x] is no longer than [y] it
    returns, and returns [True] exactly when [x] equals the beginning of [y]
    item by item: the empty tuple equals everything.  When [x] is longer and
    agrees with all of [y], it raises [IndexError]. *)
Theorem tuple_eq_compares_positions (x y : list pyval) :
  ((length x <= length y)%nat ->
     (exists b, tuple_eq x y = Ok b)
     /\ (tuple_eq x y = Ok true <-> items_equal x (take (length x) y)))
  /\ ((length y < length x)%nat ->
        items_equal (take (length y) x) y ->
        tuple_eq x y = Raise IndexError).
Proof.
  split.
  - intros Hlen. split.
    + exact (tuple_eq_from_total x [] y Hlen).
    + exact (tuple_eq_from_prefix x [] y Hlen).
  - intros Hlen Heq. exact (tuple_eq_from_short x [] y Hlen Heq).
Qed.

Lemma bucket_has_spec (bucket : list (list pyval)) (keys : list pyval) :
  Forall (fun x => length x = length keys) bucket ->
  exists b, bucket_has bucket keys = Ok b
            /\ (b = true <-> exists x, x ∈ bucket /\ items_equal x keys).
Proof.
  induction bucket as [| x rest IH]; intros Hlen; simpl.
  - exists false. split; [reflexivity |]. split; [discriminate |].
    intros (x & Hx & _). inversion Hx.
  - inversion Hlen as [| ? ? Hx Hrest]; subst.
    destruct (tuple_eq_from_total x [] keys) as (b & Hb); [lia |].
    change (tuple_eq x keys = Ok b) in Hb.
    assert (Hiff : tuple_eq x keys = Ok true <-> items_equal x (take (length x) keys))
      by (apply (tuple_eq_from_prefix x [] keys); lia).
    rewrite Hx, firstn_all in Hiff. rewrite Hb. simpl.
    destruct b.
    + exists true. split; [reflexivity |]. split; [| reflexivity].
      intros _. exists x. split; [left |]. apply Hiff. exact Hb.
    + destruct (IH Hrest) as (b' & Hb' & Hiff'). exists b'. split; [exact Hb' |].
      rewrite Hiff'. split.
      * intros (x' & Hin & Heq). exists x'. split; [right; exact Hin | exact Heq].
      * intros (x' & Hin & Heq). apply elem_of_cons in Hin as [-> | Hin].
        -- apply Hiff in Heq. congruence.
        -- exists x'. split; assumption.
Qed.

(** X6.  On a hash table whose tuples all have one item per unique key,
    [__has_duplicate] returns without raising, and it returns [True] exactly
    when the bucket of the record's digest holds a tuple equal, item by item
    under [==], to the key tuple of the record: a digest shared with other
    keys is not taken for a duplicate. *)
Theorem has_duplicate_exact (r : row) (h : string) (keys : list pyval) (st : collector) :
  buckets_of_length (length (unique_keys cfg)) (hash_keys st) ->
  uniq_keys_of cfg r = Ok keys ->
  exists b,
    has_duplicate cfg r h st = (st, Ok b)
    /\ (b = true <->
        exists bucket x, hash_keys st !! h = Some bucket /\ x ∈ bucket /\ items_equal x keys).
Proof.
  intros Hwf Hk. rewrite has_duplicate_eq, Hk.
  destruct (hash_keys st !! h) as [bucket |] eqn:Hb.
  - simpl. destruct (bucket_has_spec bucket keys) as (b & Hbh & Hiff).
    { eapply Forall_impl; [eapply Hwf, Hb |]. intros x Hx. simpl in Hx.
      rewrite Hx. symmetry. apply (mapM_result_length _ _ _ Hk). }
    exists b. rewrite Hbh. split; [reflexivity |]. rewrite Hiff. split.
    + intros (x & Hin & Heq). exists bucket, x. repeat split; assumption.
    + intros (bucket' & x & [= <-] & Hin & Heq). exists x. split; assumption.
  - exists false. split; [reflexivity |]. split; [discriminate |].
    intros (bucket & x & Hb' & _). discriminate.
Qed.

Lemma has_duplicate_returns (r : row) (h : string) (keys : list pyval) (st : collector) :
  buckets_of_length (length (unique_keys cfg)) (hash_keys st) ->
  uniq_keys_of cfg r = Ok keys ->
  exists b, has_duplicate cfg r h st = (st, Ok b).
Proof.
  intros Hwf Hk. rewrite has_duplicate_eq, Hk.
  destruct (hash_keys st !! h) as [bucket |] eqn:Hb.
  - simpl. destruct (bucket_has_spec bucket keys) as (b & Hbh & _).
    { eapply Forall_impl; [eapply Hwf, Hb |]. intros x Hx. simpl in Hx.
      rewrite Hx. symmetry. apply (mapM_result_length _ _ _ Hk). }
    exists b. rewrite Hbh. reflexivity.
  - exists false. reflexivity.
Qed.

(** ** One record, with all that it changes *)

Lemma ingest_outcome (record : pyval) (st : collector) :
  same_content st (fst (ingest cfg record st))
  \/ exists r h keys values rows rec,
       parse_fields (fields cfg) record ∅ = Ok r
       /\ hash_unique_key cfg (inl r) = Ok h
       /\ uniq_keys_of cfg r = Ok keys
       /\ values_of cfg r = Ok values
       /\ wanted cfg r h st
       /\ table (working (sqlite st)) = Some rows
       /\ stored_row (map type (fields cfg)) values (inc_id st) = Ok rec
       /\ working (sqlite (fst (ingest cfg record st)))
          = {| table := Some (rows ++ [rec])%list; indexes := indexes (working (sqlite st)) |}
       /\ hash_keys (fst (ingest cfg record st)) = record_keys h keys (hash_keys st)
       /\ inc_id (fst (ingest cfg record st)) = inc_id st + 1.
Proof.
  destruct (ingest_cases cfg record st)
    as [Hsame | (r & h & keys & values & c & Hp & Hh & Hk & Hv & Hc & Hw)].
  - left. exact Hsame.
  - right. destruct (insert_stores cfg r st h keys values c Hh Hk Hv Hc Hw) as (Hw1 & Hh1 & Hi1).
    destruct (execute_insert_Ok _ _ _ _ _ Hc) as (rows & rec & Ht & Hrec & Hwc & _ & _).
    exists r, h, keys, values, rows, rec.
    rewrite (ingest_parsed cfg _ _ _ Hp), Hw1, Hwc.
    repeat split; assumption.
Qed.

(** Whatever holds of the collector before and after one record, and
    composes, holds across [add]. *)
Lemma add_loop_steps (P : collector -> collector -> Prop) :
  (forall st, P st st) ->
  (forall st1 st2 st3, P st1 st2 -> P st2 st3 -> P st1 st3) ->
  (forall record st, P st (fst (ingest cfg record st))) ->
  forall r_list st calls, P st (final (add_loop cfg r_list st calls)).
Proof.
  intros Hrefl Htrans Hstep r_list.
  induction r_list as [| record rest IH]; intros st calls; simpl.
  - apply Hrefl.
  - pose proof (Hstep record st) as Hone.
    destruct (ingest cfg record st) as [st' [[] | e]]; simpl in Hone.
    + eapply Htrans; [exact Hone | apply IH].
    + destruct (is_Exception e); [| exact Hone].
      destruct (error_handler cfg) as [handler |].
      * destruct (handler e record); [exact Hone |].
        eapply Htrans; [exact Hone | apply IH].
      * eapply Htrans; [exact Hone | apply IH].
Qed.

Lemma add_all_steps (P : collector -> collector -> Prop) :
  (forall st, P st st) ->
  (forall st1 st2 st3, P st1 st2 -> P st2 st3 -> P st1 st3) ->
  (forall record st, P st (fst (ingest cfg record st))) ->
  forall calls st, P st (add_all cfg calls st).
Proof.
  intros Hrefl Htrans Hstep calls.
  induction calls as [| r calls IH]; intros st; simpl.
  - apply Hrefl.
  - eapply Htrans; [| apply IH].
    unfold add. destruct r; simpl; try apply Hrefl;
      apply add_loop_steps; assumption.
Qed.

(** An invariant of one record is an invariant of any sequence of calls. *)
Lemma add_all_invariant (Q : collector -> Prop) :
  (forall record st, Q st -> Q (fst (ingest cfg record st))) ->
  forall calls st, Q st -> Q (add_all cfg calls st).
Proof.
  intros Hstep calls st.
  apply (add_all_steps (fun st st' => Q st -> Q st')); auto.
Qed.

(** ** The hash table of a collector that was constructed *)

Lemma rehydrate_lengths (rows : list (list pyval))
  (index index' : gmap string (list (list pyval))) :
  rehydrate cfg rows index = Ok index' ->
  buckets_of_length (length (unique_keys cfg)) index ->
  buckets_of_length (length (unique_keys cfg)) index'.
Proof.
  revert index. induction rows as [| rec rows IH]; intros index; simpl.
  - intros [= <-] Hwf. exact Hwf.
  - intros Hb Hwf.
    apply result_bind_Ok in Hb as (h & _ & Hb).
    apply result_bind_Ok in Hb as (keys & Hk & Hrest).
    apply (IH _ Hrest).
    apply record_keys_length; [apply (mapM_result_length _ _ _ Hk) | exact Hwf].
Qed.

Lemma init_lengths (disk : gmap string database) (st : collector) :
  init cfg disk = Ok st ->
  buckets_of_length (length (unique_keys cfg)) (hash_keys st).
Proof.
  intros Hinit. destruct (append cfg) eqn:Happ.
  - destruct (init_append cfg _ _ Happ Hinit) as (_ & _ & Hre).
    apply (rehydrate_lengths _ _ _ Hre).
    intros h bucket Hb. rewrite lookup_empty in Hb. discriminate.
  - destruct (init_truncate cfg _ _ Happ Hinit) as (_ & -> & _).
    intros h bucket Hb. rewrite lookup_empty in Hb. discriminate.
Qed.

Lemma ingest_lengths (record : pyval) (st : collector) :
  buckets_of_length (length (unique_keys cfg)) (hash_keys st) ->
  buckets_of_length (length (unique_keys cfg)) (hash_keys (fst (ingest cfg record st))).
Proof.
  intros Hwf.
  destruct (ingest_outcome record st)
    as [(_ & -> & _) | (r & h & keys & values & rows & rec & _ & _ & Hk & _ & _ & _ & _ & _ & -> & _)].
  - exact Hwf.
  - apply record_keys_length; [apply (mapM_result_length _ _ _ Hk) | exact Hwf].
Qed.

Lemma add_all_lengths (disk : gmap string database) (st : collector) (calls : list pyval) :
  init cfg disk = Ok st ->
  buckets_of_length (length (unique_keys cfg)) (hash_keys (add_all cfg calls st)).
Proof.
  intros Hinit.
  apply (add_all_invariant
           (fun s => buckets_of_length (length (unique_keys cfg)) (hash_keys s))).
  - intros record s. apply ingest_lengths.
  - eapply init_lengths, Hinit.
Qed.

(** X7.  In a collector that was constructed, after any sequence of [add]
    calls, every tuple of the hash table has one item per unique key, and
    the duplicate check of a record that could be hashed returns: it never
    raises. *)
Theorem duplicate_check_never_raises
  (disk : gmap string database) (st : collector) (calls : list pyval) :
  init cfg disk = Ok st ->
  let st' := add_all cfg calls st in
  buckets_of_length (length (unique_keys cfg)) (hash_keys st')
  /\ forall (r : row) (h : string),
       hash_unique_key cfg (inl r) = Ok h ->
       exists b, has_duplicate cfg r h st' = (st', Ok b).
Proof.
  intros Hinit st'.
  pose proof (add_all_lengths disk st calls Hinit) as Hwf. fold st' in Hwf.
  split; [exact Hwf |]. intros r h Hh.
  destruct (hash_dict_Ok cfg _ _ Hh) as (_ & keys & Hk & _).
  exact (has_duplicate_returns r h keys st' Hwf Hk).
Qed.

(** ** Keys once recorded *)

Lemma bucket_has_elem (bucket : list (list pyval)) (keys : list pyval) :
  keys ∈ bucket ->
  Forall (fun v => py_eq v v = true) keys ->
  bucket_has bucket keys <> Ok false.
Proof.
  intros Hin Hself. induction bucket as [| x rest IH]; simpl.
  - inversion Hin.
  - apply elem_of_cons in Hin as [<- | Hin].
    + rewrite (tuple_eq_self _ Hself). simpl. discriminate.
    + destruct (tuple_eq x keys) as [[|] | e]; simpl;
        [discriminate | exact (IH Hin) | discriminate].
Qed.

(** The hash table only grows. *)
Lemma ingest_keeps_recorded (record : pyval) (st : collector) (keys : list pyval) :
  recorded keys (hash_keys st) ->
  recorded keys (hash_keys (fst (ingest cfg record st))).
Proof.
  intros (bucket & Hb & Hin).
  destruct (ingest_outcome record st)
    as [(_ & -> & _) | (r & h & keys' & values & rows & rec & _ & _ & _ & _ & _ & _ & _ & _ & -> & _)].
  - exists bucket. split; assumption.
  - eapply record_keys_grows; eassumption.
Qed.

Lemma recorded_is_skipped (record : pyval) (r : row) (keys : list pyval) (st : collector) :
  skip_duplicate cfg = true ->
  unique_keys cfg <> [] ->
  parse_fields (fields cfg) record ∅ = Ok r ->
  uniq_keys_of cfg r = Ok keys ->
  Forall (fun v => py_eq v v = true) keys ->
  recorded keys (hash_keys st) ->
  same_content st (final (add cfg (VList [record]) st)).
Proof.
  intros Hs Hne Hp Hk Hself (bucket & Hb & Hin).
  rewrite add_single_final, (ingest_parsed cfg _ _ _ Hp).
  apply (insert_skips cfg r st _ (hash_of_keys cfg _ _ Hne Hk) Hs).
  rewrite has_duplicate_eq. simpl snd. rewrite Hb, Hk. simpl.
  apply bucket_has_elem; assumption.
Qed.

(** X8.  With duplicate skipping enabled, once a record is stored, every
    later record of the session whose unique-key values are the same (none
    of them NaN) is not stored, however many calls of [add] lie in between
    and whatever its other fields are. *)
Theorem equal_keys_are_skipped
  (st0 : collector) (record1 record2 : pyval) (r1 r2 : row)
  (keys rec : list pyval) (calls : list pyval) :
  let st1 := final (add cfg (VList [record1]) st0) in
  let st2 := add_all cfg calls st1 in
  skip_duplicate cfg = true ->
  parse_fields (fields cfg) record1 ∅ = Ok r1 ->
  uniq_keys_of cfg r1 = Ok keys ->
  Forall (fun v => v <> VFloat nan) keys ->
  rows_of st1 = (rows_of st0 ++ [rec])%list ->
  parse_fields (fields cfg) record2 ∅ = Ok r2 ->
  uniq_keys_of cfg r2 = Ok keys ->
  rows_of (final (add cfg (VList [record2]) st2)) = rows_of st2.
Proof.
  intros st1 st2 Hs Hp1 Hk1 Hn Hrows Hp2 Hk2.
  assert (E1 : st1 = fst (ingest cfg record1 st0)) by apply add_single_final.
  destruct (ingest_outcome record1 st0)
    as [Hsame | (r & h & keys' & values & rows & rec0 & Hp & Hh & Hk & Hv & _ & Ht & Hrec & Hw & Hhk & _)].
  { rewrite <- E1 in Hsame. apply rows_of_same in Hsame. rewrite Hsame in Hrows.
    apply (f_equal length) in Hrows. rewrite length_app in Hrows. simpl in Hrows. lia. }
  rewrite Hp1 in Hp. injection Hp as <-. rewrite Hk1 in Hk. injection Hk as <-.
  destruct (hash_dict_Ok cfg _ _ Hh) as (Hne & _).
  rewrite (hash_of_keys cfg _ _ Hne Hk1) in Hh. injection Hh as <-.
  rewrite <- E1 in Hhk.
  assert (Hself : Forall (fun v => py_eq v v = true) keys).
  { exact (stored_keys_self_equal cfg r1 keys values rec0 (inc_id st0) Hk1 Hv Hrec Hn). }
  assert (Hrec1 : recorded keys (hash_keys st1)).
  { rewrite Hhk. unfold recorded. rewrite record_keys_lookup.
    destruct (decide _) as [_ | []]; [| reflexivity].
    eexists. split; [reflexivity |]. apply elem_of_app. right. left. }
  assert (Hrec2 : recorded keys (hash_keys st2)).
  { subst st2.
    apply (add_all_invariant (fun s => recorded keys (hash_keys s))); [| exact Hrec1].
    intros record s. apply ingest_keeps_recorded. }
  apply rows_of_same.
  eapply recorded_is_skipped; eassumption.
Qed.

(** ** What is durable *)

Lemma commit_on_boundary_cases (st : collector) :
  fst (commit_on_boundary cfg st) = st
  \/ fst (commit_on_boundary cfg st)
     = {| sqlite := commit (sqlite st); hash_keys := hash_keys st; inc_id := inc_id st |}.
Proof.
  unfold commit_on_boundary, and_then, get_state, fail, pure, sqlite_commit.
  destruct (batch_size cfg =? 0); [left; reflexivity |].
  destruct (inc_id st mod batch_size cfg =? 0); [right | left]; reflexivity.
Qed.

Lemma commit_on_boundary_durable (st : collector) :
  durable_prefix st -> durable_prefix (fst (commit_on_boundary cfg st)).
Proof.
  intros Hd. destruct (commit_on_boundary_cases st) as [-> | ->]; [exact Hd |].
  unfold durable_prefix, rows_of, rows_in. simpl. reflexivity.
Qed.

Lemma insert_durable (r : row) (st : collector) :
  durable_prefix st -> durable_prefix (fst (insert cfg r st)).
Proof.
  intros Hd. rewrite insert_eq.
  destruct (hash_unique_key cfg (inl r)) as [h | e]; [| exact Hd].
  destruct (if negb (skip_duplicate cfg) then _ else _) as [[|] | e]; [| | exact Hd].
  - rewrite store_eq.
    destruct (values_of cfg r) as [values | e]; [| exact Hd].
    destruct (execute_insert _ _ _ _) as [c | e] eqn:Hc; [| exact Hd].
    apply execute_insert_Ok in Hc as (rows & rec & Ht & _ & Hw & Hdur & _).
    assert (Hd' : forall index next,
               durable_prefix {| sqlite := c; hash_keys := index; inc_id := next |}).
    { intros index next. unfold durable_prefix, rows_of in Hd |- *. simpl.
      rewrite Hdur, Hw. simpl. rewrite Ht in Hd.
      etransitivity; [exact Hd |]. apply prefix_app_r. reflexivity. }
    destruct (uniq_keys_of cfg r) as [keys | e]; [| apply Hd'].
    destruct (commit_on_boundary cfg _) as [st' res] eqn:Hfin.
    change st' with (fst (st', res)). rewrite <- Hfin.
    apply commit_on_boundary_durable, Hd'.
  - destruct (commit_on_boundary cfg st) as [st' res] eqn:Hfin.
    change st' with (fst (st', res)). rewrite <- Hfin.
    apply commit_on_boundary_durable, Hd.
Qed.

Lemma ingest_durable (record : pyval) (st : collector) :
  durable_prefix st -> durable_prefix (fst (ingest cfg record st)).
Proof.
  intros Hd. unfold ingest, and_then, lift.
  destruct (parse_fields (fields cfg) record ∅) as [r | e]; [| exact Hd].
  apply insert_durable, Hd.
Qed.

Lemma setup_schema_durable (c c' : connection) :
  setup_schema cfg c = Ok c' -> durable c' = working c'.
Proof.
  unfold setup_schema. intros Hb.
  apply result_bind_Ok in Hb as (c1 & _ & Hb).
  apply result_bind_Ok in Hb as (c2 & _ & Hb).
  apply result_bind_Ok in Hb as (c3 & _ & Hb).
  apply result_bind_Ok in Hb as (c4 & _ & Hb).
  apply result_bind_Ok in Hb as (c5 & _ & [= <-]). reflexivity.
Qed.

Lemma init_durable (disk : gmap string database) (st : collector) :
  init cfg disk = Ok st -> durable (sqlite st) = working (sqlite st).
Proof.
  unfold init. intros Hb. apply result_bind_Ok in Hb as (c & Hc & Hst).
  rewrite (prepare_state_sqlite cfg _ _ Hst). apply (setup_schema_durable _ _ Hc).
Qed.

(** X9.  In a collector that was constructed, after any sequence of [add]
    calls the rows that would survive a crash are a beginning of the rows
    stored: an insert or a commit never drops, reorders or changes a durable
    row.  [__del__] makes every row durable: with a file behind the
    collector the file then holds all the rows; in memory nothing is
    written. *)
Theorem durable_rows_are_a_prefix
  (disk disk' : gmap string database) (st : collector) (calls : list pyval) :
  init cfg disk = Ok st ->
  let st' := add_all cfg calls st in
  durable_prefix st'
  /\ (in_memory cfg = false ->
      del cfg st' disk' !! file_name cfg = Some (working (sqlite st')))
  /\ (in_memory cfg = true -> del cfg st' disk' = disk').
Proof.
  intros Hinit st'. split; [| split].
  - subst st'. apply (add_all_invariant durable_prefix).
    + intros record s. apply ingest_durable.
    + unfold durable_prefix, rows_of, rows_in. rewrite (init_durable _ _ Hinit). reflexivity.
  - intros Hm. unfold del, close. rewrite Hm, lookup_insert_eq. reflexivity.
  - intros Hm. unfold del, close. rewrite Hm. reflexivity.
Qed.

(** ** Closing and opening again *)

Lemma reopen_append (st1 st2 : collector) (disk : gmap string database) :
  in_memory cfg = false ->
  append cfg = true ->
  init cfg (del cfg st1 disk) = Ok st2 ->
  rows_of st2 = rows_of st1
  /\ inc_id st2 = Z.of_nat (length (rows_of st1)) + 1.
Proof.
  intros Hm Happ Hinit.
  destruct (init_append cfg _ _ Happ Hinit) as (Hrows & Hinc & _).
  assert (Hex : existing_rows (connect (in_memory cfg) (file_name cfg) (del cfg st1 disk))
                = rows_of st1).
  { unfold existing_rows, rows_in, rows_of. rewrite Hm, (del_file cfg _ _ Hm). reflexivity. }
  rewrite Hex in Hrows, Hinc. split; assumption.
Qed.

(** X10.  A collection closed and opened again.  With a file behind it and
    in append mode the new collector sees exactly the rows the old one had
    and its counter is one past their number; in truncate mode it starts
    empty with counter 1; and an in-memory collection leaves nothing: opening
    it again is opening it for the first time. *)
Theorem close_and_reopen
  (st1 st2 : collector) (disk : gmap string database) :
  init cfg (del cfg st1 disk) = Ok st2 ->
  (in_memory cfg = false -> append cfg = true ->
     rows_of st2 = rows_of st1
     /\ inc_id st2 = Z.of_nat (length (rows_of st1)) + 1)
  /\ (append cfg = false -> rows_of st2 = [] /\ hash_keys st2 = ∅ /\ inc_id st2 = 1)
  /\ (in_memory cfg = true -> init cfg disk = Ok st2).
Proof.
  intros Hinit. split; [| split].
  - intros Hm Happ. exact (reopen_append st1 st2 disk Hm Happ Hinit).
  - intros Happ. apply (init_truncate cfg _ _ Happ Hinit).
  - intros Hm. rewrite <- Hinit. unfold init, del, close, connect. rewrite Hm. reflexivity.
Qed.

(** X11.  In either mode, in a collector that was constructed, after any
    sequence of [add] calls the counter is one past the number of rows of
    the table: the next identifier is never one already given out by this
    collector or counted in the table it opened. *)
Theorem counter_is_row_count_plus_one
  (disk : gmap string database) (st : collector) (calls : list pyval) :
  init cfg disk = Ok st ->
  inc_id (add_all cfg calls st) = Z.of_nat (length (rows_of (add_all cfg calls st))) + 1.
Proof.
  intros Hinit. pose proof (init_counter cfg _ _ Hinit) as Hinc.
  destruct (add_all_appended cfg calls st) as (new & Hr & _ & Hc).
  rewrite Hc, Hr, length_app, Hinc. lia.
Qed.

(** ** Key indices *)





(** ** The row an insert leaves *)




(** ** A batch size of zero *)

Lemma commit_on_boundary_zero (st : collector) :
  batch_size cfg = 0 -> commit_on_boundary cfg st = (st, Raise ZeroDivisionError).
Proof.
  intros Hz. unfold commit_on_boundary, and_then, get_state, fail. rewrite Hz. reflexivity.
Qed.

(** X15.  With [batch_size=0] no record gets through [__insert] without an
    exception: the modulo raises [ZeroDivisionError] after the row is
    stored.  Every record that is stored is also reported as failed, with
    [ZeroDivisionError]. *)
Theorem batch_size_zero (record : pyval) (st : collector) :
  batch_size cfg = 0 ->
  (exists e, snd (ingest cfg record st) = Raise e)
  /\ (rows_of (fst (ingest cfg record st)) <> rows_of st ->
      snd (ingest cfg record st) = Raise ZeroDivisionError).
Proof.
  intros Hz. unfold ingest, and_then, lift.
  destruct (parse_fields (fields cfg) record ∅) as [r | e].
  2:{ split; [eexists; reflexivity | intros Hneq; contradiction]. }
  rewrite insert_eq.
  destruct (hash_unique_key cfg (inl r)) as [h | e] eqn:Hh.
  2:{ split; [eexists; reflexivity | intros Hneq; contradiction]. }
  destruct (hash_dict_Ok cfg _ _ Hh) as (_ & keys & Hk & _).
  destruct (if negb (skip_duplicate cfg) then _ else _) as [[|] | e].
  - rewrite store_eq, Hk.
    destruct (values_of cfg r) as [values | e].
    2:{ split; [eexists; reflexivity | intros Hneq; contradiction]. }
    destruct (execute_insert _ _ _ _) as [c | e].
    2:{ split; [eexists; reflexivity | intros Hneq; contradiction]. }
    rewrite (commit_on_boundary_zero _ Hz). simpl.
    split; [eexists; reflexivity | reflexivity].
  - rewrite (commit_on_boundary_zero _ Hz). simpl.
    split; [eexists; reflexivity | reflexivity].
  - split; [eexists; reflexivity | intros Hneq; contradiction].
Qed.

(** ** How calls of [add] compose *)

(** The calls made so far to the handler are carried along, nothing more. *)
Lemma add_loop_calls (r_list : list pyval) (st : collector) (calls : list (exn * pyval)) :
  final (add_loop cfg r_list st calls) = final (add_loop cfg r_list st [])
  /\ raised (add_loop cfg r_list st calls) = raised (add_loop cfg r_list st [])
  /\ handled (add_loop cfg r_list st calls)
     = (calls ++ handled (add_loop cfg r_list st []))%list.
Proof.
  revert st calls. induction r_list as [| record rest IH]; intros st calls; simpl.
  - rewrite app_nil_r. repeat split.
  - destruct (ingest cfg record st) as [st' [[] | e]].
    + apply IH.
    + destruct (is_Exception e); simpl; [| rewrite app_nil_r; repeat split].
      destruct (error_handler cfg) as [handler |]; [| apply IH].
      destruct (handler e record); simpl; [repeat split |].
      destruct (IH st' (calls ++ [(e, record)])%list) as (H1 & H2 & H3).
      destruct (IH st' [(e, record)]) as (H4 & H5 & H6).
      rewrite H1, H2, H3, H4, H5, H6, <- app_assoc. repeat split.
Qed.

Lemma add_loop_app (l1 l2 : list pyval) (st : collector) (calls : list (exn * pyval)) :
  add_loop cfg (l1 ++ l2) st calls =
    match raised (add_loop cfg l1 st calls) with
    | None => add_loop cfg l2 (final (add_loop cfg l1 st calls))
                (handled (add_loop cfg l1 st calls))
    | Some _ => add_loop cfg l1 st calls
    end.
Proof.
  revert st calls. induction l1 as [| record rest IH]; intros st calls; simpl.
  - reflexivity.
  - destruct (ingest cfg record st) as [st' [[] | e]].
    + apply IH.
    + destruct (is_Exception e); [| reflexivity].
      destruct (error_handler cfg) as [handler |]; [| apply IH].
      destruct (handler e record); [reflexivity | apply IH].
Qed.

(** X16.  Adding a list in one call or in two makes no difference, as long
    as no exception leaves the first call: the collector, the calls to the
    error handler and the exception that leaves, if any, are those of adding
    the first part and then the second. *)
Theorem add_in_two_calls (l1 l2 : list pyval) (st : collector) :
  raised (add cfg (VList l1) st) = None ->
  let first := add cfg (VList l1) st in
  let second := add cfg (VList l2) (final first) in
  final (add cfg (VList (l1 ++ l2)) st) = final second
  /\ handled (add cfg (VList (l1 ++ l2)) st) = (handled first ++ handled second)%list
  /\ raised (add cfg (VList (l1 ++ l2)) st) = raised second.
Proof.
  unfold add. intros Hr. cbv zeta. rewrite add_loop_app, Hr.
  destruct (add_loop_calls l2 (final (add_loop cfg l1 st []))
              (handled (add_loop cfg l1 st []))) as (H1 & H2 & H3).
  repeat split; assumption.
Qed.

(** X17.  Without an error handler, a record whose extraction fails with an
    [Exception] is as good as absent: wherever it stands in the list, the
    collector [add] leaves is the one it leaves without that record. *)
Theorem failed_record_is_transparent
  (l1 l2 : list pyval) (bad : pyval) (e : exn) (st : collector) :
  error_handler cfg = None ->
  parse_fields (fields cfg) bad ∅ = Raise e ->
  is_Exception e = true ->
  add cfg (VList (l1 ++ bad :: l2)) st = add cfg (VList (l1 ++ l2)) st.
Proof.
  intros Hh Hp He. unfold add. rewrite !add_loop_app.
  destruct (raised (add_loop cfg l1 st [])); [reflexivity |].
  simpl. unfold ingest at 1, and_then, lift. rewrite Hp, He, Hh. reflexivity.
Qed.

(** ** The hash table after reopening *)

Lemma rehydrate_app (rows1 rows2 : list (list pyval))
  (index : gmap string (list (list pyval))) :
  rehydrate cfg (rows1 ++ rows2) index
  = (index1 ← rehydrate cfg rows1 index; rehydrate cfg rows2 index1).
Proof.
  revert index. induction rows1 as [| rec rows1 IH]; intros index; simpl.
  - reflexivity.
  - destruct (hash_unique_key cfg (inr rec)) as [h | e]; simpl; [| reflexivity].
    destruct (mapM (py_getitem rec) (unique_keys cfg)) as [keys | e]; simpl; [| reflexivity].
    apply IH.
Qed.

Lemma ingest_index_of_rows (record : pyval) (st : collector) :
  keeps_keys cfg record ->
  index_of_rows cfg st ->
  index_of_rows cfg (fst (ingest cfg record st)).
Proof.
  intros Hkeep Hinv. unfold index_of_rows in *.
  destruct (ingest_outcome record st)
    as [Hsame | (r & h & keys & values & rows & rec & Hp & Hh & Hk & Hv & _ & Ht & Hrec & Hw & Hhk & _)].
  - rewrite (rows_of_same _ _ Hsame). destruct Hsame as (_ & -> & _). exact Hinv.
  - destruct (hash_dict_Ok cfg _ _ Hh) as (Hne & _).
    rewrite (hash_of_keys cfg _ _ Hne Hk) in Hh. injection Hh as <-.
    assert (Hcols : mapM (py_getitem rec) (unique_keys cfg) = Ok keys).
    { rewrite <- Hk. apply (Hkeep r (inc_id st) rec Hp). exists values. split; assumption. }
    unfold rows_of in Hinv |- *. rewrite Hw. simpl. rewrite Ht in Hinv.
    rewrite rehydrate_app, Hinv. simpl.
    rewrite (hash_of_columns cfg _ _ Hne Hcols). simpl. rewrite Hcols. simpl.
    rewrite Hhk. reflexivity.
Qed.

Lemma add_loop_index_of_rows (r_list : list pyval) (st : collector)
  (calls : list (exn * pyval)) :
  Forall (keeps_keys cfg) r_list ->
  index_of_rows cfg st ->
  index_of_rows cfg (final (add_loop cfg r_list st calls)).
Proof.
  revert st calls. induction r_list as [| record rest IH]; intros st calls Hall Hinv; simpl.
  - exact Hinv.
  - inversion Hall as [| ? ? Hrec Hrest]; subst.
    pose proof (ingest_index_of_rows record st Hrec Hinv) as Hone.
    destruct (ingest cfg record st) as [st' [[] | e]]; simpl in Hone.
    + apply IH; assumption.
    + destruct (is_Exception e); [| exact Hone].
      destruct (error_handler cfg) as [handler |]; [| apply IH; assumption].
      destruct (handler e record); [exact Hone | apply IH; assumption].
Qed.

Lemma init_index_of_rows (disk : gmap string database) (st : collector) :
  init cfg disk = Ok st -> index_of_rows cfg st.
Proof.
  intros Hinit. unfold index_of_rows. destruct (append cfg) eqn:Happ.
  - destruct (init_append cfg _ _ Happ Hinit) as (-> & _ & Hre). exact Hre.
  - destruct (init_truncate cfg _ _ Happ Hinit) as (-> & -> & _). reflexivity.
Qed.

(** X18.  When the storage keeps the unique-key values of every record as
    they were parsed, the hash table of the session is at every moment the
    one [__init_sqlite] would build from the rows of the table; so a
    collection closed and reopened in append mode comes back with the same
    hash table, the same rows and the same counter. *)
Theorem index_survives_reopening
  (disk disk' : gmap string database) (st0 st2 : collector) (records : list pyval) :
  in_memory cfg = false ->
  append cfg = true ->
  init cfg disk = Ok st0 ->
  Forall (keeps_keys cfg) records ->
  let st1 := final (add cfg (VList records) st0) in
  init cfg (del cfg st1 disk') = Ok st2 ->
  index_of_rows cfg st1
  /\ hash_keys st2 = hash_keys st1
  /\ rows_of st2 = rows_of st1
  /\ inc_id st2 = inc_id st1.
Proof.
  intros Hm Happ Hinit Hall st1 Hre.
  assert (Hinv : index_of_rows cfg st1).
  { subst st1. unfold add. apply add_loop_index_of_rows; [exact Hall |].
    eapply init_index_of_rows, Hinit. }
  destruct (reopen_append st1 st2 disk' Hm Happ Hre) as (Hrows & Hinc).
  pose proof (init_index_of_rows _ _ Hre) as Hinv2.
  unfold index_of_rows in Hinv, Hinv2. rewrite Hrows, Hinv in Hinv2.
  injection Hinv2 as Hhk.
  assert (Hc : inc_id (add_all cfg [VList records] st0)
               = Z.of_nat (length (rows_of (add_all cfg [VList records] st0))) + 1).
  { pose proof (init_counter cfg _ _ Hinit) as Hinc0.
    destruct (add_all_appended cfg [VList records] st0) as (new & Hr & _ & Hcc).
    rewrite Hcc, Hr, length_app, Hinc0. lia. }
  change (inc_id st1 = Z.of_nat (length (rows_of st1)) + 1) in Hc.
  repeat split; [exact Hinv | congruence | exact Hrows | rewrite Hinc, Hc; reflexivity].
Qed.

End Facts.

End MoreCollectorFacts.

(* ===================================================================== *)
(** * Properties of the query and export methods *)
(* ===================================================================== *)

Module FacadeFacts.
Import PyValue Fields Storage Collector Facade CollectorFacts.

Lemma unquote_body_double_quotes (s : string) :
  unquote_body (String.append (double_quotes s) (String dquote EmptyString)) = Some s.
Proof.
  induction s as [| c rest IH]; simpl.
  - reflexivity.
  - destruct (Ascii.eqb_spec c dquote) as [-> | Hne]; simpl.
    + rewrite IH. reflexivity.
    + destruct (Ascii.eqb_spec c dquote) as [? | _]; [contradiction |].
      rewrite IH. reflexivity.
Qed.

Lemma row_dict_fold (columns : list string) (y : list pyval)
  (d : gmap string pyval) (c : string) :
  NoDup columns ->
  length columns = length y ->
  (forall k, columns !! k = Some c ->
     fold_left (fun d kv => <[fst kv := snd kv]> d) (zip columns y) d !! c = y !! k)
  /\ (c ∉ columns ->
      fold_left (fun d kv => <[fst kv := snd kv]> d) (zip columns y) d !! c = d !! c).
Proof.
  revert y d. induction columns as [| c0 cs IH]; intros y d Hnd Hlen.
  - split; [intros k Hk; discriminate | reflexivity].
  - destruct y as [| v0 vs]; [discriminate |]. simpl in Hlen.
    apply NoDup_cons in Hnd as (Hc0 & Hnd).
    destruct (IH vs (<[c0 := v0]> d) Hnd ltac:(lia)) as (Hin & Hout). simpl. split.
    + intros [| k] Hk; simpl in Hk.
      * injection Hk as <-. rewrite (Hout Hc0), lookup_insert_eq. reflexivity.
      * apply Hin, Hk.
    + intros Hnot. apply not_elem_of_cons in Hnot as (Hne & Hnot).
      rewrite (Hout Hnot), lookup_insert_ne by congruence. reflexivity.
Qed.

Section Facts.
Context `{Builtins} `{Engine}.
Variable run_sql :
  string -> list pyval -> connection -> result (option (list string) * list (list pyval)).
Variable cfg : config.

(** X19.  A text value written by [query_as_csv] is enclosed in double
    quotes with every double quote inside doubled, so that reading the field
    back (doubled quotes as one, up to the closing quote) gives the original
    text, whatever characters it holds. *)
Theorem csv_text_round_trip (s : string) : unquote (parse_val (VStr s)) = Some s.
Proof.
  unfold parse_val, unquote. rewrite Ascii.eqb_refl. apply unquote_body_double_quotes.
Qed.

(** X20.  With no statement given ([None] or the empty string) and column
    names that are all different, [query] returns one dict per row of the
    table, in the order of the rows; in the dict of a row every field name
    maps to the column of that field, and ["__id"] to the last column. *)
Theorem query_returns_the_rows
  (sql : option string) (st : collector) (rows : list (list pyval)) :
  sql = None \/ sql = Some "" ->
  table (working (sqlite st)) = Some rows ->
  NoDup (map name (fields cfg) ++ ["__id"])%list ->
  let columns := (map name (fields cfg) ++ ["__id"])%list in
  query run_sql cfg sql None st = Ok (map (row_dict columns) rows)
  /\ forall rec,
       length rec = S (length (fields cfg)) ->
       (forall (k : nat) (f : Field),
           fields cfg !! k = Some f -> row_dict columns rec !! name f = rec !! k)
       /\ row_dict columns rec !! "__id" = last rec.
Proof.
  intros Hsql Ht Hnd columns. split.
  - unfold query, get_objects, select_star, select_all.
    destruct Hsql as [-> | ->]; simpl; rewrite Ht; reflexivity.
  - intros rec Hlen.
    assert (Hl : length columns = length rec).
    { subst columns. rewrite length_app, length_map. simpl. lia. }
    split.
    + intros k f Hf. unfold row_dict.
      apply (proj1 (row_dict_fold columns rec ∅ (name f) Hnd Hl)).
      subst columns. rewrite lookup_app_l.
      * rewrite list_lookup_fmap, Hf. reflexivity.
      * rewrite length_map. eapply lookup_lt_Some, Hf.
    + unfold row_dict.
      rewrite (proj1 (row_dict_fold columns rec ∅ "__id" Hnd Hl) (length (fields cfg))).
      * rewrite last_lookup, Hlen. reflexivity.
      * subst columns. rewrite lookup_app_r; rewrite length_map; [| lia].
        rewrite Nat.sub_diag. reflexivity.
Qed.

End Facts.

End FacadeFacts.

(* ===================================================================== *)
(** * The further properties on concrete inputs *)
(* ===================================================================== *)

Module MoreExamples.
Import PyValue Fields Storage Collector Facade Terms Demo MoreDemo.
Import FieldsFacts CollectorFacts MoreFieldsFacts MoreCollectorFacts FacadeFacts.

#[local] Existing Instance demo_builtins.
#[local] Existing Instance demo_engine.

Lemma path_value_is_extracted_witness :
  Field_default_value_parser nested_field
    (VDict [("a", VDict [("b", VList [VInt 5])])]) = Ok (VList [VInt 5]).
Proof.
  apply path_value_is_extracted; [| reflexivity | reflexivity].
  apply walk_Some_iff. reflexivity.
Defined.

Lemma segments_of_raw_name_witness :
  String.concat "." (splited_key_names nested_field) = "a.b"
  /\ split "." "b" = ["b"].
Proof.
  split.
  - exact (proj1 (proj2 (segments_of_raw_name nested_field))).
  - apply (proj2 (proj2 (segments_of_raw_name nested_field)) "b").
    vm_compute. right. left.
Defined.

Lemma typed_field_values_witness :
  VInt 5 = VNone \/ exists z, VInt 5 = VInt z.
Proof.
  exact (typed_field_values (field_of IntField "a") (rec_a 5) (VInt 5) eq_refl eq_refl).
Defined.

Lemma null_is_like_missing_witness :
  parse (field_of FloatField "x") (VDict [("x", VNone)]) = Ok (VFloat nan).
Proof.
  apply (null_is_like_missing (field_of FloatField "x") (VDict [("x", VNone)]));
    try reflexivity.
  apply walk_Some_iff. reflexivity.
Defined.

Lemma tuple_eq_compares_positions_witness :
  ((exists b, tuple_eq [VInt 1] [VInt 1; VInt 2] = Ok b)
   /\ (tuple_eq [VInt 1] [VInt 1; VInt 2] = Ok true
       <-> items_equal [VInt 1] (take 1 [VInt 1; VInt 2])))
  /\ tuple_eq [VInt 1; VInt 2] [VInt 1] = Raise IndexError.
Proof.
  split.
  - apply (proj1 (tuple_eq_compares_positions [VInt 1] [VInt 1; VInt 2])). simpl. lia.
  - apply (proj2 (tuple_eq_compares_positions [VInt 1; VInt 2] [VInt 1])).
    + simpl. lia.
    + repeat constructor.
Defined.

Lemma has_duplicate_exact_witness :
  let cfg := int_collection true false true 4096 in
  let st := add_all cfg [VList [rec_a 10]] (constructed (init cfg ∅)) in
  exists b,
    has_duplicate cfg {["a" := VInt 10]} "10" st = (st, Ok b)
    /\ (b = true <->
        exists bucket x, hash_keys st !! "10" = Some bucket /\ x ∈ bucket
                         /\ items_equal x [VInt 10]).
Proof.
  intros cfg st.
  apply (has_duplicate_exact cfg {["a" := VInt 10]} "10" [VInt 10] st).
  - apply (add_all_lengths cfg ∅). vm_compute. reflexivity.
  - vm_compute. reflexivity.
Defined.

Lemma duplicate_check_never_raises_witness :
  let cfg := int_collection true false true 4096 in
  let st' := add_all cfg [seven_records] (constructed (init cfg ∅)) in
  buckets_of_length (length (unique_keys cfg)) (hash_keys st')
  /\ forall (r : row) (h : string),
       hash_unique_key cfg (inl r) = Ok h ->
       exists b, has_duplicate cfg r h st' = (st', Ok b).
Proof.
  intros cfg.
  apply (duplicate_check_never_raises cfg ∅ (constructed (init cfg ∅)) [seven_records]).
  vm_compute. reflexivity.
Defined.

Lemma equal_keys_are_skipped_witness :
  let cfg := int_collection true false true 4096 in
  let st0 := constructed (init cfg ∅) in
  let st1 := final (add cfg (VList [rec_a 10]) st0) in
  let st2 := add_all cfg [VList [rec_a 20]; VList [rec_a 30]] st1 in
  rows_of (final (add cfg (VList [VDict [("b", VInt 1); ("a", VInt 10)]]) st2))
  = rows_of st2.
Proof.
  intros cfg st0 st1 st2.
  apply (equal_keys_are_skipped cfg st0 (rec_a 10) (VDict [("b", VInt 1); ("a", VInt 10)])
           {["a" := VInt 10]} {["a" := VInt 10]} [VInt 10] [VInt 10; VInt 1]
           [VList [rec_a 20]; VList [rec_a 30]]).
  - reflexivity.
  - vm_compute. reflexivity.
  - vm_compute. reflexivity.
  - constructor; [discriminate | constructor].
  - vm_compute. reflexivity.
  - vm_compute. reflexivity.
  - vm_compute. reflexivity.
Defined.

Lemma durable_rows_are_a_prefix_witness :
  let cfg := int_collection true false false 3 in
  let st' := add_all cfg [seven_records] (constructed (init cfg ∅)) in
  durable_prefix st'
  /\ (in_memory cfg = false ->
      del cfg st' ∅ !! file_name cfg = Some (working (sqlite st')))
  /\ (in_memory cfg = true -> del cfg st' ∅ = ∅).
Proof.
  intros cfg.
  apply (durable_rows_are_a_prefix cfg ∅ ∅ (constructed (init cfg ∅)) [seven_records]).
  vm_compute. reflexivity.
Defined.

Lemma close_and_reopen_witness :
  let cfg := int_collection true true false 4096 in
  let st1 := add_all cfg [seven_records] (constructed (init cfg ∅)) in
  let st2 := constructed (init cfg (del cfg st1 ∅)) in
  (in_memory cfg = false -> append cfg = true ->
     rows_of st2 = rows_of st1
     /\ inc_id st2 = Z.of_nat (length (rows_of st1)) + 1)
  /\ (append cfg = false -> rows_of st2 = [] /\ hash_keys st2 = ∅ /\ inc_id st2 = 1)
  /\ (in_memory cfg = true -> init cfg ∅ = Ok st2).
Proof.
  intros cfg st1 st2.
  apply (close_and_reopen cfg st1 st2 ∅).
  vm_compute. reflexivity.
Defined.

Lemma counter_is_row_count_plus_one_witness :
  let cfg := int_collection true false true 3 in
  let st' := add_all cfg [seven_records; VList [rec_a 10]] (constructed (init cfg ∅)) in
  inc_id st' = Z.of_nat (length (rows_of st')) + 1.
Proof.
  intros cfg.
  apply (counter_is_row_count_plus_one cfg ∅ (constructed (init cfg ∅))).
  vm_compute. reflexivity.
Defined.




Lemma batch_size_zero_witness :
  let cfg := int_collection true false true 0 in
  let st0 := constructed (init cfg ∅) in
  (exists e, snd (ingest cfg (rec_a 10) st0) = Raise e)
  /\ (rows_of (fst (ingest cfg (rec_a 10) st0)) <> rows_of st0 ->
      snd (ingest cfg (rec_a 10) st0) = Raise ZeroDivisionError).
Proof.
  intros cfg st0. apply (batch_size_zero cfg (rec_a 10) st0). reflexivity.
Defined.

Lemma add_in_two_calls_witness :
  let cfg := int_collection true false true 3 in
  let st0 := constructed (init cfg ∅) in
  let first := add cfg (VList [rec_a 10; VStr "x"]) st0 in
  let second := add cfg (VList [rec_a 10; rec_a 20]) (final first) in
  final (add cfg (VList ([rec_a 10; VStr "x"] ++ [rec_a 10; rec_a 20])) st0) = final second
  /\ handled (add cfg (VList ([rec_a 10; VStr "x"] ++ [rec_a 10; rec_a 20])) st0)
     = (handled first ++ handled second)%list
  /\ raised (add cfg (VList ([rec_a 10; VStr "x"] ++ [rec_a 10; rec_a 20])) st0)
     = raised second.
Proof.
  intros cfg st0.
  apply (add_in_two_calls cfg [rec_a 10; VStr "x"] [rec_a 10; rec_a 20] st0).
  vm_compute. reflexivity.
Defined.

Lemma failed_record_is_transparent_witness :
  let st0 := constructed (init silent_collection ∅) in
  add silent_collection (VList ([rec_a 10] ++ VDict [("a", VStr "x")] :: [rec_a 20])) st0
  = add silent_collection (VList ([rec_a 10] ++ [rec_a 20])) st0.
Proof.
  intros st0.
  apply (failed_record_is_transparent silent_collection [rec_a 10] [rec_a 20]
           (VDict [("a", VStr "x")]) ValueError st0).
  - reflexivity.
  - vm_compute. reflexivity.
  - reflexivity.
Defined.

Lemma rec_a_keeps_keys (n : Z) (skip app mem : bool) (batch : Z) :
  keeps_keys (int_collection skip app mem batch) (rec_a n).
Proof.
  intros r id rec Hp (values & Hv & Hrec).
  vm_compute in Hp. injection Hp as <-.
  vm_compute in Hv. injection Hv as <-.
  unfold stored_row in Hrec. simpl in Hrec.
  destruct ((- 2 ^ 63 <=? n) && (n <? 2 ^ 63)); simpl in Hrec; [| discriminate].
  injection Hrec as <-. reflexivity.
Qed.

Lemma index_survives_reopening_witness :
  let cfg := int_collection true true false 4096 in
  let st0 := constructed (init cfg ∅) in
  let st1 := final (add cfg (VList [rec_a 10; rec_a 20]) st0) in
  let st2 := constructed (init cfg (del cfg st1 ∅)) in
  index_of_rows cfg st1
  /\ hash_keys st2 = hash_keys st1
  /\ rows_of st2 = rows_of st1
  /\ inc_id st2 = inc_id st1.
Proof.
  intros cfg st0 st1 st2.
  apply (index_survives_reopening cfg ∅ ∅ st0 st2 [rec_a 10; rec_a 20]).
  - reflexivity.
  - reflexivity.
  - vm_compute. reflexivity.
  - repeat constructor; apply rec_a_keeps_keys.
  - vm_compute. reflexivity.
Defined.

Lemma query_returns_the_rows_witness :
  let cfg := int_collection true false true 4096 in
  let st := add_all cfg [VList [rec_a 10; rec_a 20]] (constructed (init cfg ∅)) in
  let columns := (map name (fields cfg) ++ ["__id"])%list in
  query no_sql cfg None None st
  = Ok (map (row_dict columns) [[VInt 10; VInt 1]; [VInt 20; VInt 2]])
  /\ forall rec,
       length rec = S (length (fields cfg)) ->
       (forall (k : nat) (f : Field),
           fields cfg !! k = Some f -> row_dict columns rec !! name f = rec !! k)
       /\ row_dict columns rec !! "__id" = last rec.
Proof.
  intros cfg st.
  apply (query_returns_the_rows no_sql cfg None st [[VInt 10; VInt 1]; [VInt 20; VInt 2]]).
  - left. reflexivity.
  - vm_compute. reflexivity.
  - compute_done.
Defined.

(** The query above, written out. *)
Lemma query_example :
  let cfg := int_collection true false true 4096 in
  let st := add_all cfg [VList [rec_a 10; rec_a 20]] (constructed (init cfg ∅)) in
  query no_sql cfg None None st
  = Ok [ {["a" := VInt 10; "__id" := VInt 1]}; {["a" := VInt 20; "__id" := VInt 2]} ]
  /\ query_as_csv no_sql "/" cfg (Some "") None None "," st
     = Ok (Returned "a,__id/10,1/20,2").
Proof. vm_compute. repeat split. Qed.

End MoreExamples.
